(** * A shallow embedding of [useNetwork] (packages/network/src/hooks.ts)

    The hook copies the caller's nodes and links, hands the copies to a
    d3-force simulation (which mutates them in place), stores them in React
    state, and layers style fields onto shallow copies of the stored records.
    Because the properties below are about object identity, in-place mutation and
    spread order, values are modelled as JavaScript values over an explicit
    heap of objects. *)

From Stdlib Require Import ZArith String List Bool Lia.
Import ListNotations.
Open Scope string_scope.

(** ** JavaScript values and objects *)

Definition loc := nat.   (** address of an object in the heap *)
Definition fid := nat.   (** identity of a function value *)

Inductive jsval : Type :=
| JUndef
| JNull
| JBool (b : bool)
| JNum (n : Z)
| JStr (s : string)
| JObj (l : loc)
| JFun (f : fid).

Definition jsval_eq_dec (v w : jsval) : {v = w} + {v <> w}.
Proof. decide equality; auto using Bool.bool_dec, Z.eq_dec, string_dec, Nat.eq_dec. Defined.

(** [===] on the values above (references compare by identity). *)
Definition strict_eq (v w : jsval) : bool :=
  if jsval_eq_dec v w then true else false.

(** An object is the list of its property writes, oldest first; reading a
    property returns its most recent write, so a later write overrides an
    earlier one exactly as an assignment or a later spread entry does.
    (Key order is not used by this code and is not modelled.) *)
Definition obj := list (string * jsval).

Fixpoint get_opt (o : obj) (k : string) : option jsval :=
  match o with
  | [] => None
  | (k', v) :: o' =>
      match get_opt o' k with
      | Some w => Some w
      | None => if String.eqb k k' then Some v else None
      end
  end.

(** [o.k]: [undefined] when absent. *)
Definition get (o : obj) (k : string) : jsval :=
  match get_opt o k with Some v => v | None => JUndef end.

(** [o.k = v] on a record value. *)
Definition set (o : obj) (k : string) (v : jsval) : obj := (o ++ [(k, v)])%list.

(** [{ ...acc, ...src }]: every own property of [src] written onto [acc]. *)
Definition spread (acc src : obj) : obj := (acc ++ src)%list.

(** ** The heap *)

Definition heap := list obj.

Definition read (h : heap) (l : loc) : obj :=
  match nth_error h l with Some o => o | None => [] end.

(** [{ ... }]: a fresh object at the end of the heap. *)
Definition alloc (h : heap) (o : obj) : heap * loc := ((h ++ [o])%list, length h).

Fixpoint write (h : heap) (l : loc) (o : obj) : heap :=
  match h, l with
  | [], _ => []
  | _ :: h', 0 => o :: h'
  | o' :: h', S l' => o' :: write h' l' o
  end.

(** [ref.k = v] on the object at [l]. *)
Definition assign (h : heap) (l : loc) (k : string) (v : jsval) : heap :=
  write h l (set (read h l) k v).

(** ** String conversion (template literals and [+] on strings) *)

Definition digit_char (d : N) : Ascii.ascii :=
  Ascii.ascii_of_nat (48 + N.to_nat d).

Fixpoint digits_of (fuel : nat) (n : N) (acc : string) : string :=
  match fuel with
  | O => acc
  | S fuel' =>
      let acc' := String (digit_char (N.modulo n 10)) acc in
      if (n <? 10)%N then acc' else digits_of fuel' (N.div n 10) acc'
  end.

Definition string_of_Z (z : Z) : string :=
  let s := digits_of (S (N.size_nat (Z.abs_N z))) (Z.abs_N z) "" in
  if (z <? 0)%Z then "-" ++ s else s.

(** [String(v)]; a function's source text is not modelled. *)
Definition to_string (v : jsval) : string :=
  match v with
  | JUndef => "undefined"
  | JNull => "null"
  | JBool true => "true"
  | JBool false => "false"
  | JNum n => string_of_Z n
  | JStr s => s
  | JObj _ => "[object Object]"
  | JFun _ => "function"
  end.

(** ** Errors thrown during a run *)

(** [new Error(message)] and the [TypeError] of reading a property of
    [null]. *)
Inductive js_error : Type :=
| Error (message : string)
| TypeError.

Definition throws {A} (r : js_error + A) : bool :=
  match r with inl _ => true | inr _ => false end.

Notation "'let*' x ':=' m 'in' k" :=
  (match m with inl e => inl e | inr x => k end)
  (at level 200, x name, m at level 100, k at level 200).

Section Network.

(** The caller's accessor functions, called as [f(entity)]; they are taken
    to be side-effect free. *)
Variable call : heap -> fid -> jsval -> jsval.

(** [useInheritedColor(nodeBorderColor, theme)] and
    [useInheritedColor(linkColor, theme)] (package @nivo/colors). *)
Variable getNodeBorderColor : heap -> jsval -> jsval.
Variable getLinkColor : heap -> jsval -> jsval.

(** ** Configuration (after the default parameters are applied) *)

Record props : Type := mkProps {
  center : Z * Z;
  nodes : list loc;
  links : list loc;
  linkDistance : jsval;
  repulsivity : Z;
  distanceMin : Z;
  distanceMax : Z;
  iterations : nat;
  nodeColor : jsval;
  nodeBorderWidth : jsval;
  linkThickness : jsval
}.

(** ** [computeForces] *)

(** What [forceLink().distance(getLinkDistance)] receives. *)
Inductive distance_accessor : Type :=
| DistFun (f : fid)         (** [linkDistance] itself, a function *)
| DistConst (n : Z)         (** [linkDistance] itself, a number *)
| DistPath (path : string). (** [(link) => get(link, linkDistance)] *)

(** The three forces, as configured: [link_distance = None] is
    [getLinkDistance] left [undefined]. *)
Record forces : Type := mkForces {
  link_distance : option distance_accessor;
  charge_strength : Z;
  charge_distanceMin : Z;
  charge_distanceMax : Z;
  center_point : Z * Z
}.

Definition computeForces (linkDistance : jsval) (repulsivity distanceMin distanceMax : Z)
    (center : Z * Z) : forces :=
  let getLinkDistance :=
    match linkDistance with
    | JFun f => Some (DistFun f)
    | JNum n => Some (DistConst n)
    | JStr s => Some (DistPath s)
    | _ => None
    end in
  {| link_distance := getLinkDistance;
     charge_strength := - repulsivity;
     charge_distanceMin := distanceMin;
     charge_distanceMax := distanceMax;
     center_point := center |}.

(** The d3-force simulation ([forceSimulation(...).tick(iterations)]):
    given the heap once the link force has resolved the links, the forces,
    the node copies, the link copies and the iteration count, the final
    position [(x, y)] of a node copy. The integrator itself is outside this
    repository and left opaque. *)
Variable engine : heap -> forces -> list loc -> list loc -> nat -> loc -> jsval * jsval.

(** ** The copies made at the start of a run *)

(** [nodes.map(node => ({ ...node }))] *)
Fixpoint copy_nodes (h : heap) (ns : list loc) : heap * list loc :=
  match ns with
  | [] => (h, [])
  | l :: ns' =>
      let '(h1, l1) := alloc h (spread [] (read h l)) in
      let '(h2, ls) := copy_nodes h1 ns' in
      (h2, l1 :: ls)
  end.

(** [{ id: `${link.source}.${link.target}`, ...link }] *)
Definition link_copy (link : obj) : obj :=
  spread [("id", JStr (to_string (get link "source") ++ "." ++ to_string (get link "target")))]
         link.

(** [links.map(link => link_copy(link))] *)
Fixpoint copy_links (h : heap) (ls : list loc) : heap * list loc :=
  match ls with
  | [] => (h, [])
  | l :: ls' =>
      let '(h1, l1) := alloc h (link_copy (read h l)) in
      let '(h2, ls2) := copy_links h1 ls' in
      (h2, l1 :: ls2)
  end.

(** ** d3-force's link force: resolving link ends on [initialize]

    [nodeById = new Map(nodes.map(d => [d.id, d]))] (a later node with the
    same id replaces an earlier one), then for each link in order:
    [link.index = i]; an end that is not already an object is replaced by
    [find(nodeById, end)], which throws [new Error("node not found: " + id)]
    when the id is absent; finally [count[link.source.index]] and
    [count[link.target.index]] are read. *)
Definition node_by_id (h : heap) (ns : list loc) : list (jsval * loc) :=
  map (fun l => (get (read h l) "id", l)) ns.

Fixpoint map_get (m : list (jsval * loc)) (k : jsval) : option loc :=
  match m with
  | [] => None
  | (k', l) :: m' =>
      match map_get m' k with
      | Some l' => Some l'
      | None => if strict_eq k k' then Some l else None
      end
  end.

Definition find (nodeById : list (jsval * loc)) (nodeId : jsval) : js_error + jsval :=
  match map_get nodeById nodeId with
  | Some l => inr (JObj l)
  | None => inl (Error ("node not found: " ++ to_string nodeId))
  end.

(** [typeof end !== "object" ? find(nodeById, end) : end] *)
Definition resolve_end (nodeById : list (jsval * loc)) (v : jsval) : js_error + jsval :=
  match v with
  | JObj _ | JNull => inr v
  | _ => find nodeById v
  end.

(** Reading [.index] of a resolved end. *)
Definition read_index (v : jsval) : js_error + unit :=
  match v with
  | JNull | JUndef => inl TypeError
  | _ => inr tt
  end.

Fixpoint init_links (nodeById : list (jsval * loc)) (h : heap) (ls : list loc) (i : nat)
    : js_error + heap :=
  match ls with
  | [] => inr h
  | l :: ls' =>
      let h1 := assign h l "index" (JNum (Z.of_nat i)) in
      let* src := resolve_end nodeById (get (read h1 l) "source") in
      let h2 := assign h1 l "source" src in
      let* tgt := resolve_end nodeById (get (read h2 l) "target") in
      let h3 := assign h2 l "target" tgt in
      let* _ := read_index src in
      let* _ := read_index tgt in
      init_links nodeById h3 ls' (S i)
  end.

(** ** The steps: final positions written onto the node copies *)
Fixpoint place_nodes (pos : loc -> jsval * jsval) (h : heap) (ns : list loc) : heap :=
  match ns with
  | [] => h
  | l :: ns' =>
      let '(x, y) := pos l in
      place_nodes pos (assign (assign h l "x" x) l "y" y) ns'
  end.

(** ** The hook's state *)

(** [currentNodes] and [currentLinks]: [None] is the [null] they start
    from. *)
Record hook_state : Type := mkState {
  currentNodes : option (list loc);
  currentLinks : option (list loc)
}.

Definition initial_state : hook_state := mkState None None.

(** [currentNodes.find(n => n.id === id)] *)
Fixpoint find_by_id (h : heap) (ns : list loc) (id : jsval) : jsval :=
  match ns with
  | [] => JUndef
  | n :: ns' => if strict_eq (get (read h n) "id") id then JObj n else find_by_id h ns' id
  end.

(** [link.source.id] once [link.source] is a node object. *)
Definition id_of (h : heap) (v : jsval) : jsval :=
  match v with
  | JObj s => get (read h s) "id"
  | _ => JUndef
  end.

(** [currentNodes ? currentNodes.find(n => n.id === end.id) : undefined] *)
Definition previous_of (cur : option (list loc)) (h : heap) (v : jsval) : jsval :=
  match cur with
  | Some ns => find_by_id h ns (id_of h v)
  | None => JUndef
  end.

(** The [linksCopy.map(link => { link.previousSource = ...;
    link.previousTarget = ...; return link })] of the effect: it assigns on
    the link copies themselves. *)
Fixpoint set_previous (cur : option (list loc)) (h : heap) (ls : list loc) : heap :=
  match ls with
  | [] => h
  | l :: ls' =>
      let h1 := assign h l "previousSource" (previous_of cur h (get (read h l) "source")) in
      let h2 := assign h1 l "previousTarget" (previous_of cur h1 (get (read h1 l) "target")) in
      set_previous cur h2 ls'
  end.

(** ** The effect: one run of the layout

    [cur] is the [currentNodes] the effect's closure sees. A thrown error
    leaves the state as it was ([setCurrentNodes] is never reached). *)
Definition run_effect (h : heap) (p : props) (st : hook_state) : js_error + (heap * hook_state) :=
  let fs := computeForces (linkDistance p) (repulsivity p) (distanceMin p) (distanceMax p)
              (center p) in
  let '(h1, nodesCopy) := copy_nodes h (nodes p) in
  let '(h2, linksCopy) := copy_links h1 (links p) in
  let* h3 := init_links (node_by_id h2 nodesCopy) h2 linksCopy 0 in
  let h4 := place_nodes (engine h3 fs nodesCopy linksCopy (iterations p)) h3 nodesCopy in
  let h5 := set_previous (currentNodes st) h4 linksCopy in
  inr (h5, mkState (Some nodesCopy) (Some linksCopy)).

(** The state after the effect: unchanged when it threw. *)
Definition commit (h : heap) (p : props) (st : hook_state) : heap * hook_state :=
  match run_effect h p st with
  | inl _ => (h, st)
  | inr r => r
  end.

(** ** The styling pipeline *)

(** [useNodeColor] and [useLinkThickness]: a function is kept, any other
    value becomes [() => value]. *)
Definition normalize_accessor (v : jsval) : heap -> jsval -> jsval :=
  match v with
  | JFun f => fun h arg => call h f arg
  | _ => fun _ _ => v
  end.

Definition useNodeColor (color : jsval) : heap -> jsval -> jsval := normalize_accessor color.
Definition useLinkThickness (thickness : jsval) : heap -> jsval -> jsval :=
  normalize_accessor thickness.

(** A [.map] that builds one fresh object per element. The accessors are
    side-effect free and cannot reach the objects the map allocates, so the
    records are built against the heap as it is when the map starts and then
    allocated in order. *)
Definition alloc_all (h : heap) (os : list obj) : heap * list loc :=
  ((h ++ os)%list, seq (length h) (length os)).

(** [{ ...node, color: getNodeColor(node), borderWidth: nodeBorderWidth,
    borderColor: getNodeBorderColor(node) }] *)
Definition style_node (getNodeColor : heap -> jsval -> jsval) (nodeBorderWidth : jsval)
    (h : heap) (l : loc) : obj :=
  set (set (set (spread [] (read h l))
    "color" (getNodeColor h (JObj l)))
    "borderWidth" nodeBorderWidth)
    "borderColor" (getNodeBorderColor h (JObj l)).

(** [currentNodes.map(node => style_node(node))] *)
Definition enhance_nodes (getNodeColor : heap -> jsval -> jsval) (nodeBorderWidth : jsval)
    (h : heap) (ns : list loc) : heap * list loc :=
  alloc_all h (map (style_node getNodeColor nodeBorderWidth h) ns).

(** [{ ...link, thickness: getLinkThickness(link), color: getLinkColor(link) }] *)
Definition style_link (getLinkThickness : heap -> jsval -> jsval) (h : heap) (l : loc) : obj :=
  set (set (spread [] (read h l))
    "thickness" (getLinkThickness h (JObj l)))
    "color" (getLinkColor h (JObj l)).

(** [currentLinks.map(link => style_link(link))] *)
Definition enhance_links (getLinkThickness : heap -> jsval -> jsval) (h : heap) (ls : list loc)
    : heap * list loc :=
  alloc_all h (map (style_link getLinkThickness h) ls).

(** [[enhancedNodes, enhancedLinks]], the value the hook returns. *)
Definition useNetwork_output (h : heap) (p : props) (st : hook_state)
    : heap * (option (list loc) * option (list loc)) :=
  let '(h1, enhancedNodes) :=
    match currentNodes st with
    | None => (h, None)
    | Some ns =>
        let '(h', ens) := enhance_nodes (useNodeColor (nodeColor p)) (nodeBorderWidth p) h ns in
        (h', Some ens)
    end in
  let '(h2, enhancedLinks) :=
    match currentLinks st with
    | None => (h1, None)
    | Some ls =>
        let '(h', els) := enhance_links (useLinkThickness (linkThickness p)) h1 ls in
        (h', Some els)
    end in
  (h2, (enhancedNodes, enhancedLinks)).

End Network.

(** * Predicates on inputs and states *)

(** [typeof v === "object"] *)
Definition is_object (v : jsval) : bool :=
  match v with JObj _ | JNull => true | _ => false end.

(** An end is either an id or a reference below [B]. *)
Definition end_ok (B : nat) (v : jsval) : Prop :=
  match v with JObj s => s < B | _ => True end.

Ltac split_lets H :=
  repeat match type of H with
  | context [match ?x with inl _ => _ | inr _ => _ end] =>
      let E := fresh "E" in destruct x eqn:E; [discriminate |]
  end.

(** The objects [previous_of] reads (the previous nodes and the end's
    object) lie outside [ls]. *)
Definition reads_outside (cur : option (list loc)) (v : jsval) (ls : list loc) : Prop :=
  (match cur with Some ns => forall n, In n ns -> ~ In n ls | None => True end) /\
  (match v with JObj s => ~ In s ls | _ => True end).

(** The caller's arrays refer to objects of the heap. *)
Definition valid_input (h : heap) (p : props) : Prop :=
  Forall (fun l => l < length h) (nodes p) /\ Forall (fun l => l < length h) (links p).

(** Every link end is an id or a reference to an existing object. *)
Definition ends_ok (h : heap) (p : props) : Prop :=
  forall l, In l (links p) ->
    end_ok (length h) (get (read h l) "source") /\ end_ok (length h) (get (read h l) "target").

(** The nodes a state refers to exist. *)
Definition valid_state (h : heap) (st : hook_state) : Prop :=
  match currentNodes st with Some ns => Forall (fun l => l < length h) ns | None => True end.

(** [v] is a node of [ns] whose [id] is [id], or [undefined] when [ns] has
    no such node. *)
Definition previous_ref (h : heap) (ns : list loc) (id v : jsval) : Prop :=
  (exists n, v = JObj n /\ In n ns /\ get (read h n) "id" = id) \/
  (v = JUndef /\ forall n, In n ns -> get (read h n) "id" <> id).

(** The ids of the caller's nodes. *)
Definition node_ids (h : heap) (p : props) : list jsval :=
  map (fun n => get (read h n) "id") (nodes p).

(** [p] with [linkDistance] set to [v]. *)
Definition with_linkDistance (p : props) (v : jsval) : props :=
  mkProps (center p) (nodes p) (links p) v (repulsivity p) (distanceMin p) (distanceMax p)
    (iterations p) (nodeColor p) (nodeBorderWidth p) (linkThickness p).

(** [p] with the nodes [ns] and the links [ls]. *)
Definition with_graph (p : props) (ns ls : list loc) : props :=
  mkProps (center p) ns ls (linkDistance p) (repulsivity p) (distanceMin p) (distanceMax p)
    (iterations p) (nodeColor p) (nodeBorderWidth p) (linkThickness p).

(** The stored arrays refer to objects of the heap. *)
Definition styled_input (h : heap) (st : hook_state) : Prop :=
  match currentNodes st with Some ns => Forall (fun l => l < length h) ns | None => True end /\
  match currentLinks st with Some ls => Forall (fun l => l < length h) ls | None => True end.

(** The array of an output, [null] read as no element. *)
Definition or_empty (o : option (list loc)) : list loc :=
  match o with Some ls => ls | None => [] end.

(** * Concrete inputs *)

(** Two nodes [a] and [b]; a link [a -> b]; a link [a -> z] to an absent
    node; a link [a -> b] with an id of its own. *)
Definition ex_heap : heap :=
  [ [("id", JStr "a")];
    [("id", JStr "b")];
    [("source", JStr "a"); ("target", JStr "b")];
    [("source", JStr "a"); ("target", JStr "z")];
    [("id", JStr "ab"); ("source", JStr "a"); ("target", JStr "b")] ].

Definition ex_props (ns ls : list loc) : props :=
  mkProps (0, 0)%Z ns ls (JNum 30) 10 1 100 5 (JStr "red") (JNum 1) (JNum 2).

(** An integrator that places node [l] at [(l, 7)]. *)
Definition ex_engine (_ : heap) (_ : forces) (_ _ : list loc) (_ : nat) (l : loc) : jsval * jsval :=
  (JNum (Z.of_nat l), JNum 7).

(** Every caller function returns [3]. *)
Definition ex_call (_ : heap) (_ : fid) (_ : jsval) : jsval := JNum 3.

Definition ex_color (_ : heap) (_ : jsval) : jsval := JStr "gray".

(** The first run, on nodes [a], [b] and the link [a -> b]. *)
Definition ex_run1 : heap * hook_state := commit ex_engine ex_heap (ex_props [0; 1] [2]) initial_state.

(** A second run with the same input, from the state the first one left. *)
Definition ex_run2 : heap * hook_state :=
  commit ex_engine (fst ex_run1) (ex_props [0; 1] [2]) (snd ex_run1).

(** A first run on nodes [a], [b] and the links [a -> b] and [a -> b] with
    its own id. *)
Definition ex_run3 : heap * hook_state :=
  commit ex_engine ex_heap (ex_props [0; 1] [2; 4]) initial_state.

(** A function (id [0]) given as [nodeBorderWidth]. *)
Definition ex_props_bw : props :=
  mkProps (0, 0)%Z [0; 1] [2] (JNum 30) 10 1 100 5 (JStr "red") (JFun 0) (JNum 2).

(** [l < n] for each [l] of a concrete list. *)
Ltac forall_lt :=
  repeat (apply Forall_cons; [apply Nat.ltb_lt; vm_compute; reflexivity |]); apply Forall_nil.

(** * NetworkNodes (packages/network/src/NetworkNodes.tsx) *)

(** The functions [getEnterTransition<N>()], [getRegularTransition<N>()]
    and [getExitTransition<N>()] return, applied to a computed node. *)
Definition getEnterTransition (h : heap) (node : loc) : obj :=
  [("x", get (read h node) "x"); ("y", get (read h node) "y");
   ("radius", get (read h node) "radius"); ("color", get (read h node) "color");
   ("borderWidth", get (read h node) "borderWidth");
   ("borderColor", get (read h node) "borderColor"); ("scale", JNum 0)].

Definition getRegularTransition (h : heap) (node : loc) : obj :=
  [("x", get (read h node) "x"); ("y", get (read h node) "y");
   ("radius", get (read h node) "radius"); ("color", get (read h node) "color");
   ("borderWidth", get (read h node) "borderWidth");
   ("borderColor", get (read h node) "borderColor"); ("scale", JNum 1)].

Definition getExitTransition (h : heap) (node : loc) : obj :=
  [("x", get (read h node) "x"); ("y", get (read h node) "y");
   ("radius", get (read h node) "radius"); ("color", get (read h node) "color");
   ("borderWidth", get (read h node) "borderWidth");
   ("borderColor", get (read h node) "borderColor"); ("scale", JNum 0)].

(** [keys: node => node.id], the key [useTransition] matches nodes by. *)
Definition transition_key (h : heap) (node : loc) : jsval := get (read h node) "id".

(** * Where a link end points after a run *)

(** [v] is the node copy [JObj c] made from the caller's node [ns[j]]
    whose [id] is [id], and no later caller node has that [id]. *)
Definition last_node_with_id (h : heap) (ns nc : list loc) (id v : jsval) : Prop :=
  exists j n c, nth_error ns j = Some n /\ nth_error nc j = Some c /\ v = JObj c /\
    get (read h n) "id" = id /\
    forall j' n', j < j' -> nth_error ns j' = Some n' -> get (read h n') "id" <> id.

(** [v] is the first node of [ns] whose [id] is [id], or [undefined] when
    [ns] has none. *)
Definition first_node_with_id (h : heap) (ns : list loc) (id v : jsval) : Prop :=
  (exists j n, nth_error ns j = Some n /\ v = JObj n /\ get (read h n) "id" = id /\
     forall j' n', j' < j -> nth_error ns j' = Some n' -> get (read h n') "id" <> id) \/
  (v = JUndef /\ forall n, In n ns -> get (read h n) "id" <> id).

(** * Facts about objects and the heap *)

Example string_of_Z_ex : string_of_Z 1203 = "1203" /\ string_of_Z (-7) = "-7" /\ string_of_Z 0 = "0".
Proof. repeat split; reflexivity. Qed.

Lemma get_opt_app (o1 o2 : obj) (k : string) :
  get_opt (o1 ++ o2)%list k =
  match get_opt o2 k with Some w => Some w | None => get_opt o1 k end.
Proof.
  induction o1 as [| [k' v] o1 IH]; simpl.
  - destruct (get_opt o2 k); reflexivity.
  - rewrite IH. destruct (get_opt o2 k); reflexivity.
Qed.

Lemma get_set_same (o : obj) (k : string) (v : jsval) : get (set o k v) k = v.
Proof. unfold get, set. rewrite get_opt_app. simpl. now rewrite String.eqb_refl. Qed.

Lemma get_set_other (o : obj) (k k' : string) (v : jsval) :
  k' <> k -> get (set o k v) k' = get o k'.
Proof.
  intro Hne. unfold get, set. rewrite get_opt_app. simpl.
  apply String.eqb_neq in Hne. now rewrite Hne.
Qed.

Lemma get_spread_nil (o : obj) (k : string) : get (spread [] o) k = get o k.
Proof. reflexivity. Qed.

Lemma read_app_lt (h h' : heap) (l : loc) : l < length h -> read (h ++ h')%list l = read h l.
Proof. intro Hl. unfold read. now rewrite nth_error_app1. Qed.

Lemma read_app_ge (h h' : heap) (l : loc) :
  length h <= l -> read (h ++ h')%list l = read h' (l - length h).
Proof. intro Hl. unfold read. now rewrite nth_error_app2. Qed.

Lemma length_write (h : heap) (l : loc) (o : obj) : length (write h l o) = length h.
Proof.
  revert l; induction h as [| o' h IH]; intros [| l]; simpl; auto.
Qed.

Lemma read_write_same (h : heap) (l : loc) (o : obj) : l < length h -> read (write h l o) l = o.
Proof.
  unfold read; revert l; induction h as [| o' h IH]; intros [| l] Hl; simpl in *; try lia; auto.
  apply IH; lia.
Qed.

Lemma read_write_other (h : heap) (l l' : loc) (o : obj) :
  l <> l' -> read (write h l o) l' = read h l'.
Proof.
  unfold read; revert l l'; induction h as [| o' h IH]; intros [| l] [| l'] Hne; simpl;
    auto; try congruence; apply IH; congruence.
Qed.

Lemma read_write_out (h : heap) (l : loc) (o : obj) : length h <= l -> write h l o = h.
Proof.
  revert l; induction h as [| o' h IH]; intros [| l] Hl; simpl in *; auto; try lia.
  f_equal; apply IH; lia.
Qed.

Lemma length_assign (h : heap) (l : loc) (k : string) (v : jsval) :
  length (assign h l k v) = length h.
Proof. apply length_write. Qed.

Lemma read_assign_other (h : heap) (l l' : loc) (k : string) (v : jsval) :
  l <> l' -> read (assign h l k v) l' = read h l'.
Proof. apply read_write_other. Qed.

Lemma get_assign_same (h : heap) (l : loc) (k : string) (v : jsval) :
  l < length h -> get (read (assign h l k v) l) k = v.
Proof. intro Hl. unfold assign. rewrite read_write_same by exact Hl. apply get_set_same. Qed.

(** An assignment to [k] leaves every other property of every object as it
    was. *)
Lemma get_assign_other_key (h : heap) (l l' : loc) (k k' : string) (v : jsval) :
  k' <> k -> get (read (assign h l k v) l') k' = get (read h l') k'.
Proof.
  intro Hk. unfold assign.
  destruct (Nat.eq_dec l l') as [<- | Hne].
  - destruct (Nat.lt_ge_cases l (length h)) as [Hl | Hl].
    + rewrite read_write_same by exact Hl. now apply get_set_other.
    + now rewrite read_write_out.
  - now rewrite read_write_other.
Qed.

Lemma strict_eq_true (v w : jsval) : strict_eq v w = true <-> v = w.
Proof. unfold strict_eq. destruct (jsval_eq_dec v w); split; congruence. Qed.

Lemma read_seq_app (h os rest : heap) :
  map (read ((h ++ os) ++ rest)%list) (seq (length h) (length os)) = os.
Proof.
  revert h; induction os as [| o os IH]; intro h; simpl; auto.
  f_equal.
  - rewrite <- app_assoc. rewrite read_app_ge by lia. rewrite Nat.sub_diag. reflexivity.
  - specialize (IH (h ++ [o])%list).
    rewrite length_app in IH; simpl in IH. rewrite Nat.add_1_r in IH.
    replace ((h ++ o :: os) ++ rest)%list with (((h ++ [o]) ++ os) ++ rest)%list
      by (rewrite <- !app_assoc; reflexivity). exact IH.
Qed.

Lemma map_read_app_lt (h h' : heap) (ns : list loc) :
  Forall (fun l => l < length h) ns -> map (read (h ++ h')%list) ns = map (read h) ns.
Proof.
  intro Hv. apply map_ext_in. intros l Hl.
  apply read_app_lt. rewrite Forall_forall in Hv. auto.
Qed.

(** ** The copies *)

Lemma copy_nodes_eq (h : heap) (ns : list loc) :
  Forall (fun l => l < length h) ns ->
  copy_nodes h ns = ((h ++ map (fun l => spread [] (read h l)) ns)%list, seq (length h) (length ns)).
Proof.
  revert h; induction ns as [| l ns IH]; intros h Hv; simpl.
  - now rewrite app_nil_r.
  - inversion Hv as [| ? ? Hl Hv']; subst.
    rewrite IH.
    + rewrite length_app; simpl. rewrite Nat.add_1_r. rewrite <- app_assoc. simpl.
      erewrite (map_ext_in _ (fun l' => spread [] (read h l')) ns).
      * reflexivity.
      * intros l' Hl'. simpl. rewrite read_app_lt; [reflexivity |].
        rewrite Forall_forall in Hv'. auto.
    + rewrite length_app; simpl. eapply Forall_impl; [| exact Hv']. simpl; intros; lia.
Qed.

Lemma copy_links_eq (h : heap) (ls : list loc) :
  Forall (fun l => l < length h) ls ->
  copy_links h ls = ((h ++ map (fun l => link_copy (read h l)) ls)%list, seq (length h) (length ls)).
Proof.
  revert h; induction ls as [| l ls IH]; intros h Hv; simpl.
  - now rewrite app_nil_r.
  - inversion Hv as [| ? ? Hl Hv']; subst.
    rewrite IH.
    + rewrite length_app; simpl. rewrite Nat.add_1_r. rewrite <- app_assoc. simpl.
      erewrite (map_ext_in _ (fun l' => link_copy (read h l')) ls).
      * reflexivity.
      * intros l' Hl'. simpl. rewrite read_app_lt; [reflexivity |].
        rewrite Forall_forall in Hv'. auto.
    + rewrite length_app; simpl. eapply Forall_impl; [| exact Hv']. simpl; intros; lia.
Qed.

Lemma get_link_copy_other (o : obj) (k : string) : k <> "id" -> get (link_copy o) k = get o k.
Proof.
  intro Hk. unfold link_copy, spread, get. rewrite get_opt_app.
  destruct (get_opt o k); auto. simpl.
  apply String.eqb_neq in Hk. now rewrite Hk.
Qed.

Lemma get_link_copy_id (o : obj) :
  get (link_copy o) "id" =
  match get_opt o "id" with
  | Some v => v
  | None => JStr (to_string (get o "source") ++ "." ++ to_string (get o "target"))
  end.
Proof. unfold link_copy, spread, get. rewrite get_opt_app. destruct (get_opt o "id"); auto. Qed.

(** ** [nodeById] *)

Lemma map_get_Some_key (m : list (jsval * loc)) (k : jsval) (l : loc) :
  map_get m k = Some l -> In k (map fst m).
Proof.
  revert l; induction m as [| [k' l'] m IH]; intro l; simpl; [discriminate |].
  destruct (map_get m k) eqn:E.
  - intros _. right. eapply IH; reflexivity.
  - destruct (strict_eq k k') eqn:Es; [| discriminate].
    intros _. left. symmetry. now apply strict_eq_true.
Qed.

Lemma map_get_None (m : list (jsval * loc)) (k : jsval) :
  map_get m k = None <-> ~ In k (map fst m).
Proof.
  induction m as [| [k' l] m IH]; simpl.
  - tauto.
  - destruct (map_get m k) eqn:E.
    + split; [discriminate |]. intros Hn. exfalso. apply Hn. right.
      eapply map_get_Some_key; eauto.
    + destruct (strict_eq k k') eqn:Es.
      * apply strict_eq_true in Es. subst. split; [discriminate | tauto].
      * split; [| reflexivity]. intros _ [Heq | Hin].
        -- subst. rewrite (proj2 (strict_eq_true k k) eq_refl) in Es. discriminate.
        -- apply IH in Hin; auto.
Qed.

Lemma map_get_Some (m : list (jsval * loc)) (k : jsval) (l : loc) :
  map_get m k = Some l -> In l (map snd m).
Proof.
  induction m as [| [k' l'] m IH]; simpl; [discriminate |].
  destruct (map_get m k) eqn:E.
  - intro Heq. inversion Heq; subst. right. auto.
  - destruct (strict_eq k k'); [intro Heq; inversion Heq; subst; left; auto | discriminate].
Qed.

(** The ids [nodeById] is keyed by are the ids of the caller's nodes. *)
Lemma node_by_id_keys (h rest : heap) (ns : list loc) :
  Forall (fun l => l < length h) ns ->
  map fst (node_by_id ((h ++ map (fun l => spread [] (read h l)) ns) ++ rest)%list
             (seq (length h) (length ns)))
  = map (fun n => get (read h n) "id") ns.
Proof.
  intro Hv. unfold node_by_id. rewrite map_map. simpl.
  rewrite <- (map_map (read _) (fun o => get o "id")).
  rewrite <- (length_map (fun l => spread [] (read h l)) ns).
  rewrite read_seq_app. rewrite map_map. reflexivity.
Qed.

Lemma node_by_id_values (h : heap) (ns : list loc) : map snd (node_by_id h ns) = ns.
Proof. unfold node_by_id. rewrite map_map. simpl. apply map_id. Qed.

(** ** The link force's resolution of link ends *)

Lemma resolve_end_id (m : list (jsval * loc)) (v : jsval) :
  is_object v = false -> resolve_end m v = find m v.
Proof. destruct v; simpl; congruence. Qed.

Lemma resolve_end_ref (m : list (jsval * loc)) (v w : jsval) (u : unit) (B : nat) :
  resolve_end m v = inr w -> read_index w = inr u -> end_ok B v ->
  (forall s, In s (map snd m) -> s < B) ->
  exists s, w = JObj s /\ s < B.
Proof.
  intros Hr Hi Hv Hm.
  destruct v; simpl in Hr, Hv;
    try (unfold find in Hr; destruct (map_get m _) eqn:Eg; inversion Hr; subst;
         eexists; split; [reflexivity | apply Hm; eapply map_get_Some; eauto]).
  - inversion Hr; subst. discriminate.
  - inversion Hr; subst. eauto.
Qed.

Lemma init_links_frame (m : list (jsval * loc)) (h : heap) (ls : list loc) (i : nat) (h' : heap) :
  init_links m h ls i = inr h' ->
  length h' = length h /\
  (forall l, ~ In l ls -> read h' l = read h l) /\
  (forall l k, k <> "index" -> k <> "source" -> k <> "target" ->
     get (read h' l) k = get (read h l) k).
Proof.
  revert h i; induction ls as [| l ls IH]; intros h i H; simpl in H.
  - inversion H; subst; auto.
  - split_lets H. apply IH in H as [H1 [H2 H3]].
    split; [| split].
    + now rewrite H1, !length_assign.
    + intros l' Hn. rewrite H2 by (intro; apply Hn; right; auto).
      rewrite !read_assign_other by (intro; apply Hn; left; auto). reflexivity.
    + intros l' k K1 K2 K3. rewrite H3 by assumption.
      rewrite !get_assign_other_key by assumption. reflexivity.
Qed.

Lemma init_links_resolved (m : list (jsval * loc)) (h : heap) (ls : list loc) (i : nat)
    (h' : heap) (B : nat) :
  init_links m h ls i = inr h' -> NoDup ls -> Forall (fun l => l < length h) ls ->
  (forall s, In s (map snd m) -> s < B) ->
  (forall l, In l ls -> end_ok B (get (read h l) "source") /\ end_ok B (get (read h l) "target")) ->
  forall l, In l ls ->
    (exists s, get (read h' l) "source" = JObj s /\ s < B) /\
    (exists t, get (read h' l) "target" = JObj t /\ t < B).
Proof.
  revert h i; induction ls as [| l ls IH]; intros h i H Hnd Hv Hm Hends l0 Hin; simpl in H.
  - destruct Hin.
  - inversion Hnd as [| ? ? Hnot Hnd']; subst.
    inversion Hv as [| ? ? Hl Hv']; subst.
    split_lets H.
    pose proof (init_links_frame _ _ _ _ _ H) as [F1 [F2 F3]].
    destruct Hin as [<- | Hin].
    + rewrite F2 by exact Hnot.
      destruct (Hends l (or_introl eq_refl)) as [Hs Ht].
      rewrite get_assign_other_key in E by discriminate.
      rewrite get_assign_other_key in E0 by discriminate.
      rewrite get_assign_other_key in E0 by discriminate.
      split.
      * rewrite get_assign_other_key by discriminate.
        rewrite get_assign_same by (rewrite length_assign; exact Hl).
        eapply resolve_end_ref; eauto.
      * rewrite get_assign_same by (rewrite !length_assign; exact Hl).
        eapply resolve_end_ref; eauto.
    + assert (Hne : l <> l0) by (intro; subst; contradiction).
      eapply IH; eauto.
      * eapply Forall_impl; [| exact Hv']. intros a Ha. simpl. rewrite !length_assign. exact Ha.
      * intros l1 Hl1. assert (l <> l1) by (intro; subst; contradiction).
        rewrite !read_assign_other by assumption. apply Hends. right; exact Hl1.
Qed.

Lemma init_links_dangling (m : list (jsval * loc)) (h : heap) (ls : list loc) (i : nat) :
  NoDup ls -> Forall (fun l => l < length h) ls ->
  (forall l, In l ls ->
     is_object (get (read h l) "source") = false /\ is_object (get (read h l) "target") = false) ->
  (exists l, In l ls /\
     (~ In (get (read h l) "source") (map fst m) \/ ~ In (get (read h l) "target") (map fst m))) ->
  exists v, init_links m h ls i = inl (Error ("node not found: " ++ to_string v)) /\
            ~ In v (map fst m).
Proof.
  revert h i; induction ls as [| l ls IH]; intros h i Hnd Hv Hids [l0 [Hin Hd]].
  - destruct Hin.
  - inversion Hnd as [| ? ? Hnot Hnd']; subst.
    inversion Hv as [| ? ? Hl Hv']; subst.
    destruct (Hids l (or_introl eq_refl)) as [Hs Ht].
    simpl.
    rewrite get_assign_other_key by discriminate.
    rewrite resolve_end_id by exact Hs. unfold find at 1.
    destruct (map_get m (get (read h l) "source")) as [n |] eqn:Es.
    + rewrite get_assign_other_key by discriminate.
      rewrite get_assign_other_key by discriminate.
      rewrite resolve_end_id by exact Ht. unfold find at 1.
      destruct (map_get m (get (read h l) "target")) as [n' |] eqn:Et.
      * simpl. apply IH; auto.
        -- eapply Forall_impl; [| exact Hv']. intros a Ha. simpl. rewrite !length_assign. exact Ha.
        -- intros l1 Hl1. assert (l <> l1) by (intro; subst; contradiction).
           rewrite !read_assign_other by assumption. apply Hids. right; exact Hl1.
        -- destruct Hin as [<- | Hin].
           ++ exfalso. destruct Hd as [Hd | Hd]; apply Hd; eapply map_get_Some_key; eauto.
           ++ exists l0. assert (l <> l0) by (intro; subst; contradiction).
              rewrite !read_assign_other by assumption. auto.
      * exists (get (read h l) "target"). split; [reflexivity |]. now apply map_get_None.
    + exists (get (read h l) "source"). split; [reflexivity |]. now apply map_get_None.
Qed.

(** ** The steps and the previous-frame references *)

Lemma place_nodes_frame (pos : loc -> jsval * jsval) (h : heap) (ns : list loc) :
  length (place_nodes pos h ns) = length h /\
  (forall l, ~ In l ns -> read (place_nodes pos h ns) l = read h l) /\
  (forall l k, k <> "x" -> k <> "y" -> get (read (place_nodes pos h ns) l) k = get (read h l) k).
Proof.
  revert h; induction ns as [| n ns IH]; intro h; simpl; [auto |].
  destruct (pos n) as [x y].
  destruct (IH (assign (assign h n "x" x) n "y" y)) as [H1 [H2 H3]].
  split; [| split].
  - now rewrite H1, !length_assign.
  - intros l Hn. rewrite H2 by (intro; apply Hn; right; auto).
    rewrite !read_assign_other by (intro; apply Hn; left; auto). reflexivity.
  - intros l k K1 K2. rewrite H3 by assumption.
    rewrite !get_assign_other_key by assumption. reflexivity.
Qed.

Lemma set_previous_frame (cur : option (list loc)) (h : heap) (ls : list loc) :
  length (set_previous cur h ls) = length h /\
  (forall l, ~ In l ls -> read (set_previous cur h ls) l = read h l) /\
  (forall l k, k <> "previousSource" -> k <> "previousTarget" ->
     get (read (set_previous cur h ls) l) k = get (read h l) k).
Proof.
  revert h; induction ls as [| l0 ls IH]; intro h; simpl; [auto |].
  match goal with |- context [set_previous cur ?h2 ls] => destruct (IH h2) as [H1 [H2 H3]] end.
  split; [| split].
  - now rewrite H1, !length_assign.
  - intros l Hn. rewrite H2 by (intro; apply Hn; right; auto).
    rewrite !read_assign_other by (intro; apply Hn; left; auto). reflexivity.
  - intros l k K1 K2. rewrite H3 by assumption.
    rewrite !get_assign_other_key by assumption. reflexivity.
Qed.

Lemma reads_outside_cons (cur : option (list loc)) (v : jsval) (l : loc) (ls : list loc) :
  reads_outside cur v (l :: ls) -> reads_outside cur v ls.
Proof.
  intros [H1 H2]. split.
  - destruct cur; auto. intros n Hn Hin. apply (H1 n Hn). right; exact Hin.
  - destruct v; auto. intro Hin. apply H2. right; exact Hin.
Qed.

Lemma find_by_id_frame (h h' : heap) (ns : list loc) (id : jsval) (ls : list loc) :
  (forall j, ~ In j ls -> read h' j = read h j) -> (forall n, In n ns -> ~ In n ls) ->
  find_by_id h' ns id = find_by_id h ns id.
Proof.
  intros Hf Hns. induction ns as [| n ns IH]; simpl; auto.
  rewrite Hf by (apply Hns; left; auto).
  rewrite IH by (intros n' Hn'; apply Hns; right; auto). reflexivity.
Qed.

Lemma previous_of_frame (cur : option (list loc)) (h h' : heap) (v : jsval) (ls : list loc) :
  (forall j, ~ In j ls -> read h' j = read h j) -> reads_outside cur v ls ->
  previous_of cur h' v = previous_of cur h v.
Proof.
  intros Hf [Hc Hv]. destruct cur as [ns |]; simpl; auto.
  assert (Hid : id_of h' v = id_of h v) by (destruct v; simpl; auto; now rewrite Hf).
  rewrite Hid. eapply find_by_id_frame; eauto.
Qed.

Lemma set_previous_spec (cur : option (list loc)) (h : heap) (ls : list loc) :
  NoDup ls -> Forall (fun l => l < length h) ls ->
  (forall l, In l ls -> reads_outside cur (get (read h l) "source") ls /\
                        reads_outside cur (get (read h l) "target") ls) ->
  forall l, In l ls ->
    let h' := set_previous cur h ls in
    get (read h' l) "previousSource" = previous_of cur h' (get (read h' l) "source") /\
    get (read h' l) "previousTarget" = previous_of cur h' (get (read h' l) "target").
Proof.
  revert h; induction ls as [| l ls IH]; intros h Hnd Hv Hro l0 Hin; [destruct Hin |].
  inversion Hnd as [| ? ? Hnot Hnd']; subst.
  inversion Hv as [| ? ? Hl Hv']; subst.
  simpl.
  set (h1 := assign h l "previousSource" (previous_of cur h (get (read h l) "source"))).
  set (h2 := assign h1 l "previousTarget" (previous_of cur h1 (get (read h1 l) "target"))).
  destruct (set_previous_frame cur h2 ls) as [F1 [F2 F3]].
  destruct Hin as [<- | Hin].
  - destruct (Hro l (or_introl eq_refl)) as [Rs Rt].
    assert (Hh2 : forall j, ~ In j (l :: ls) -> read (set_previous cur h2 ls) j = read h j).
    { intros j Hj. rewrite F2 by (intro; apply Hj; right; auto).
      unfold h2, h1. rewrite !read_assign_other by (intro; apply Hj; left; auto). reflexivity. }
    assert (Hh1 : forall j, ~ In j (l :: ls) -> read (set_previous cur h2 ls) j = read h1 j).
    { intros j Hj. rewrite Hh2 by exact Hj.
      unfold h1. rewrite read_assign_other by (intro; apply Hj; left; auto). reflexivity. }
    rewrite F2 by exact Hnot.
    assert (Hl1 : l < length h1) by (unfold h1; rewrite length_assign; exact Hl).
    assert (Eps : get (read h2 l) "previousSource" = previous_of cur h (get (read h l) "source")).
    { unfold h2. rewrite get_assign_other_key by discriminate. unfold h1.
      apply get_assign_same; exact Hl. }
    assert (Es : get (read h2 l) "source" = get (read h l) "source").
    { unfold h2, h1. rewrite !get_assign_other_key by discriminate. reflexivity. }
    assert (Ept : get (read h2 l) "previousTarget" =
                  previous_of cur h1 (get (read h1 l) "target")).
    { unfold h2. apply get_assign_same; exact Hl1. }
    assert (Et : get (read h2 l) "target" = get (read h1 l) "target").
    { unfold h2. rewrite get_assign_other_key by discriminate. reflexivity. }
    assert (Rt1 : reads_outside cur (get (read h1 l) "target") (l :: ls)).
    { unfold h1. rewrite get_assign_other_key by discriminate. exact Rt. }
    split.
    + rewrite Eps, Es. symmetry. eapply previous_of_frame; [exact Hh2 | exact Rs].
    + rewrite Ept, Et. symmetry. eapply previous_of_frame; [exact Hh1 | exact Rt1].
  - apply IH; auto.
    + eapply Forall_impl; [| exact Hv']. intros a Ha. simpl. unfold h2, h1.
      rewrite !length_assign. exact Ha.
    + intros l1 Hl1. assert (l <> l1) by (intro; subst; contradiction).
      unfold h2, h1. rewrite !read_assign_other by assumption.
      destruct (Hro l1 (or_intror Hl1)) as [R1 R2].
      split; eapply reads_outside_cons; eauto.
Qed.

Lemma find_by_id_spec (h : heap) (ns : list loc) (id : jsval) :
  (exists n, find_by_id h ns id = JObj n /\ In n ns /\ get (read h n) "id" = id) \/
  (find_by_id h ns id = JUndef /\ forall n, In n ns -> get (read h n) "id" <> id).
Proof.
  induction ns as [| n ns IH]; simpl.
  - right. split; [reflexivity | tauto].
  - destruct (strict_eq (get (read h n) "id") id) eqn:E.
    + left. exists n. apply strict_eq_true in E. auto.
    + destruct IH as [[n' [H1 [H2 H3]]] | [H1 H2]].
      * left. exists n'. auto.
      * right. split; [exact H1 |]. intros n' [<- | Hin] Heq.
        -- apply strict_eq_true in Heq. congruence.
        -- exact (H2 n' Hin Heq).
Qed.

(** ** A run, as a whole *)

Lemma read_alloc_range (H : heap) (f : loc -> obj) (ls : list loc) (l : loc) :
  In l (seq (length H) (length ls)) -> exists l0, In l0 ls /\ read (H ++ map f ls)%list l = f l0.
Proof.
  intro Hin. apply in_seq in Hin.
  rewrite read_app_ge by lia.
  destruct (nth_error ls (l - length H)) as [l0 |] eqn:E.
  - exists l0. split; [eapply nth_error_In; eauto |].
    unfold read. rewrite nth_error_map, E. reflexivity.
  - apply nth_error_None in E. lia.
Qed.

Lemma end_ok_mono (B B' : nat) (v : jsval) : B <= B' -> end_ok B v -> end_ok B' v.
Proof. destruct v; simpl; lia. Qed.

(** A run, once the copies are made. *)
Lemma run_effect_eq (engine : heap -> forces -> list loc -> list loc -> nat -> loc -> jsval * jsval)
    (h : heap) (p : props) (st : hook_state) :
  valid_input h p ->
  run_effect engine h p st =
  (let nc := seq (length h) (length (nodes p)) in
   let lc := seq (length h + length (nodes p)) (length (links p)) in
   let h2 := ((h ++ map (fun l => spread [] (read h l)) (nodes p))
                ++ map (fun l => link_copy (read h l)) (links p))%list in
   let* h3 := init_links (node_by_id h2 nc) h2 lc 0 in
   inr (set_previous (currentNodes st)
          (place_nodes (engine h3 (computeForces (linkDistance p) (repulsivity p) (distanceMin p)
                                     (distanceMax p) (center p)) nc lc (iterations p)) h3 nc) lc,
        mkState (Some nc) (Some lc))).
Proof.
  intros [Hvn Hvl]. unfold run_effect.
  rewrite copy_nodes_eq by exact Hvn.
  rewrite copy_links_eq
    by (eapply Forall_impl; [| exact Hvl]; intros a Ha; simpl in *; rewrite length_app; lia).
  rewrite (map_ext_in (fun l => link_copy (read (h ++ map (fun l => spread [] (read h l)) (nodes p))%list l))
             (fun l => link_copy (read h l)) (links p)).
  2: { intros a Ha. rewrite read_app_lt; [reflexivity |].
       rewrite Forall_forall in Hvl; auto. }
  rewrite length_app, length_map. reflexivity.
Qed.

(** The shape of a run that did not throw. *)
Lemma run_effect_inv (engine : heap -> forces -> list loc -> list loc -> nat -> loc -> jsval * jsval)
    (h : heap) (p : props) (st : hook_state) (h' : heap) (st' : hook_state) :
  valid_input h p -> run_effect engine h p st = inr (h', st') ->
  let nc := seq (length h) (length (nodes p)) in
  let lc := seq (length h + length (nodes p)) (length (links p)) in
  let h2 := ((h ++ map (fun l => spread [] (read h l)) (nodes p))
               ++ map (fun l => link_copy (read h l)) (links p))%list in
  exists h3,
    init_links (node_by_id h2 nc) h2 lc 0 = inr h3 /\
    h' = set_previous (currentNodes st)
           (place_nodes (engine h3 (computeForces (linkDistance p) (repulsivity p) (distanceMin p)
                                      (distanceMax p) (center p)) nc lc (iterations p)) h3 nc) lc /\
    st' = mkState (Some nc) (Some lc).
Proof.
  intros Hv Hrun. rewrite (run_effect_eq _ _ _ _ Hv) in Hrun. cbv zeta in Hrun.
  match type of Hrun with
  | context [match ?x with inl _ => _ | inr _ => _ end] =>
      destruct x as [e | h3] eqn:Ei; [discriminate |]
  end.
  injection Hrun as <- <-. exists h3. auto.
Qed.

(** After a run, every link copy's ends are node objects below the end of
    the node copies. *)
Lemma run_links_resolved (engine : heap -> forces -> list loc -> list loc -> nat -> loc -> jsval * jsval)
    (h : heap) (p : props) (st : hook_state) (h' : heap) (st' : hook_state) :
  valid_input h p -> ends_ok h p -> valid_state h st ->
  run_effect engine h p st = inr (h', st') ->
  let lc := seq (length h + length (nodes p)) (length (links p)) in
  st' = mkState (Some (seq (length h) (length (nodes p)))) (Some lc) /\
  length h + length (nodes p) + length (links p) = length h' /\
  forall l, In l lc ->
    (exists s, get (read h' l) "source" = JObj s /\ s < length h + length (nodes p)) /\
    (exists t, get (read h' l) "target" = JObj t /\ t < length h + length (nodes p)) /\
    get (read h' l) "previousSource" = previous_of (currentNodes st) h' (get (read h' l) "source") /\
    get (read h' l) "previousTarget" = previous_of (currentNodes st) h' (get (read h' l) "target").
Proof.
  intros Hv Hends Hst Hrun lc0. unfold lc0. clear lc0.
  pose proof Hv as [Hvn Hvl].
  destruct (run_effect_inv _ _ _ _ _ _ Hv Hrun) as [h3 [Ei [-> ->]]].
  set (NO := map (fun l => spread [] (read h l)) (nodes p)) in *.
  set (h2 := ((h ++ NO) ++ map (fun l => link_copy (read h l)) (links p))%list) in *.
  set (nc := seq (length h) (length (nodes p))) in *.
  set (B := length h + length (nodes p)) in *.
  set (lc := seq B (length (links p))) in *.
  assert (HlenNO : length (h ++ NO)%list = B) by (unfold B, NO; now rewrite length_app, length_map).
  assert (Hlen2 : length h2 = B + length (links p))
    by (unfold h2; rewrite length_app, HlenNO, length_map; reflexivity).
  assert (Hlc : forall l, In l lc -> B <= l < B + length (links p))
    by (intros l Hl; apply in_seq in Hl; unfold B; lia).
  destruct (init_links_frame _ _ _ _ _ Ei) as [G1 _].
  assert (Hres := init_links_resolved _ _ _ _ _ B Ei (seq_NoDup _ _)).
  destruct (place_nodes_frame
              (engine h3 (computeForces (linkDistance p) (repulsivity p) (distanceMin p) (distanceMax p)
                            (center p)) nc lc (iterations p)) h3 nc) as [P1 [_ P3]].
  set (h4 := place_nodes _ h3 nc) in *.
  destruct (set_previous_frame (currentNodes st) h4 lc) as [S1 [_ S3]].
  assert (Hr : forall l, In l lc ->
            (exists s, get (read h3 l) "source" = JObj s /\ s < B) /\
            (exists t, get (read h3 l) "target" = JObj t /\ t < B)).
  { apply Hres.
    - apply Forall_forall. intros l Hl. apply Hlc in Hl. lia.
    - intros s Hs. rewrite node_by_id_values in Hs.
      apply in_seq in Hs. unfold B; lia.
    - intros l Hl.
      assert (Hl2 : In l (seq (length (h ++ NO)%list) (length (links p))))
        by (rewrite HlenNO; exact Hl).
      destruct (read_alloc_range (h ++ NO)%list (fun l => link_copy (read h l)) (links p) l Hl2)
        as [l0 [Hin0 Hread]].
      unfold h2. rewrite Hread, !get_link_copy_other by discriminate.
      destruct (Hends l0 Hin0) as [E1 E2].
      split; apply (end_ok_mono (length h)); auto; unfold B; lia. }
  split; [reflexivity |].
  split; [rewrite (proj1 (set_previous_frame _ _ _)), P1, G1, Hlen2; reflexivity |].
  intros l Hl.
  assert (Hsrc : get (read (set_previous (currentNodes st) h4 lc) l) "source" = get (read h3 l) "source")
    by (rewrite S3, P3 by discriminate; reflexivity).
  assert (Htgt : get (read (set_previous (currentNodes st) h4 lc) l) "target" = get (read h3 l) "target")
    by (rewrite S3, P3 by discriminate; reflexivity).
  rewrite Hsrc, Htgt.
  destruct (Hr l Hl) as [Hs Ht]. split; [exact Hs |]. split; [exact Ht |].
  rewrite <- Hsrc, <- Htgt.
  apply set_previous_spec; auto.
  - apply seq_NoDup.
  - apply Forall_forall. intros l' Hl'. apply Hlc in Hl'. rewrite P1, G1. lia.
  - intros l' Hl'.
    assert (Hout : forall s, s < B -> ~ In s lc) by (intros s Hsb Hin; apply Hlc in Hin; lia).
    assert (Hcur : match currentNodes st with
                   | Some ns => forall n, In n ns -> ~ In n lc | None => True end).
    { unfold valid_state in Hst. destruct (currentNodes st) as [ns |]; auto.
      intros n Hn. apply Hout. rewrite Forall_forall in Hst. specialize (Hst n Hn). unfold B; lia. }
    destruct (Hr l' Hl') as [[s [Es Bs]] [t [Et Bt]]].
    unfold h4. rewrite !P3 by discriminate. rewrite Es, Et.
    split; split; auto.
Qed.

(** * C5: the previous-frame references of the computed links *)

(** C5. On a run from the initial state (no stored nodes yet) every link's
    [previousSource] and [previousTarget] are [undefined]; on a later run
    each is the previous run's stored node whose [id] is the [id] of the
    link's resolved source (resp. target) node, or [undefined] when the
    previous run has no node with that id. *)
Theorem previous_frame_references
    (engine : heap -> forces -> list loc -> list loc -> nat -> loc -> jsval * jsval)
    (h : heap) (p : props) (st : hook_state) (h' : heap) (st' : hook_state) :
  valid_input h p -> ends_ok h p -> valid_state h st ->
  run_effect engine h p st = inr (h', st') ->
  exists ls, currentLinks st' = Some ls /\
  forall l, In l ls ->
    exists s t,
      get (read h' l) "source" = JObj s /\ get (read h' l) "target" = JObj t /\
      match currentNodes st with
      | None =>
          get (read h' l) "previousSource" = JUndef /\ get (read h' l) "previousTarget" = JUndef
      | Some ns =>
          previous_ref h' ns (get (read h' s) "id") (get (read h' l) "previousSource") /\
          previous_ref h' ns (get (read h' t) "id") (get (read h' l) "previousTarget")
      end.
Proof.
  intros Hv Hends Hst Hrun.
  destruct (run_links_resolved _ _ _ _ _ _ Hv Hends Hst Hrun) as [-> [_ Hall]].
  eexists; split; [reflexivity |].
  intros l Hl. destruct (Hall l Hl) as [[s [Es _]] [[t [Et _]] [Hps Hpt]]].
  exists s, t. split; [exact Es |]. split; [exact Et |].
  rewrite Hps, Hpt, Es, Et.
  destruct (currentNodes st) as [ns |]; simpl; [| auto].
  split; unfold previous_ref; apply find_by_id_spec.
Qed.

Lemma read_alloc_nth (H : heap) (f : loc -> obj) (ls : list loc) (i : nat) (l : loc) :
  nth_error ls i = Some l -> read (H ++ map f ls)%list (length H + i) = f l.
Proof.
  intro Hi. rewrite read_app_ge by lia. replace (length H + i - length H) with i by lia.
  unfold read. rewrite nth_error_map, Hi. reflexivity.
Qed.

Lemma nth_error_seq_lt (a n i : nat) : i < n -> nth_error (seq a n) i = Some (a + i).
Proof.
  revert a i; induction n as [| n IH]; intros a [| i] Hi; simpl; try lia.
  - f_equal; lia.
  - rewrite IH by lia. f_equal; lia.
Qed.

Lemma read_alloc_in (H : heap) (f : loc -> obj) (ls : list loc) (l0 : loc) :
  In l0 ls -> exists l, In l (seq (length H) (length ls)) /\ read (H ++ map f ls)%list l = f l0.
Proof.
  intro Hin. apply In_nth_error in Hin as [i Hi].
  exists (length H + i). split.
  - apply in_seq. assert (i < length ls) by (apply nth_error_Some; congruence). lia.
  - now apply read_alloc_nth.
Qed.

(** * C1: a link to an absent node *)

(** C1 (as the code has it). When every link end is an id and some link
    names an id that no node has, the run throws the link force's plain
    [Error("node not found: " + id)] for an absent id: the simulation never
    runs (the outcome is the same whatever the integrator) and the hook's
    state is left as it was. *)
Theorem dangling_link_throws
    (engine : heap -> forces -> list loc -> list loc -> nat -> loc -> jsval * jsval)
    (h : heap) (p : props) (st : hook_state) :
  valid_input h p ->
  (forall l, In l (links p) ->
     is_object (get (read h l) "source") = false /\ is_object (get (read h l) "target") = false) ->
  (exists l, In l (links p) /\
     (~ In (get (read h l) "source") (node_ids h p) \/ ~ In (get (read h l) "target") (node_ids h p))) ->
  exists v, ~ In v (node_ids h p) /\
    run_effect engine h p st = inl (Error ("node not found: " ++ to_string v)) /\
    (forall engine', run_effect engine' h p st = run_effect engine h p st) /\
    commit engine h p st = (h, st).
Proof.
  intros Hv Hids [l0 [Hin0 Hd]].
  pose proof Hv as [Hvn Hvl].
  set (NO := map (fun l => spread [] (read h l)) (nodes p)).
  set (LO := map (fun l => link_copy (read h l)) (links p)).
  set (h2 := ((h ++ NO) ++ LO)%list).
  set (nc := seq (length h) (length (nodes p))).
  set (lc := seq (length h + length (nodes p)) (length (links p))).
  assert (HlenNO : length (h ++ NO)%list = length h + length (nodes p))
    by (unfold NO; now rewrite length_app, length_map).
  assert (Hlc : lc = seq (length (h ++ NO)%list) (length (links p))) by (rewrite HlenNO; reflexivity).
  assert (Hkeys : map fst (node_by_id h2 nc) = node_ids h p)
    by (unfold h2, NO, nc; rewrite node_by_id_keys by exact Hvn; reflexivity).
  destruct (init_links_dangling (node_by_id h2 nc) h2 lc 0) as [v [Hi Hv']].
  - apply seq_NoDup.
  - apply Forall_forall. intros l Hl. apply in_seq in Hl.
    unfold h2, LO, NO. rewrite !length_app, !length_map. lia.
  - intros l Hl. rewrite Hlc in Hl.
    destruct (read_alloc_range (h ++ NO)%list (fun l => link_copy (read h l)) (links p) l Hl)
      as [l1 [Hin1 Hr]].
    unfold h2, LO. rewrite Hr, !get_link_copy_other by discriminate. auto.
  - destruct (read_alloc_in (h ++ NO)%list (fun l => link_copy (read h l)) (links p) l0 Hin0)
      as [l [Hl Hr]].
    exists l. split; [rewrite Hlc; exact Hl |].
    rewrite Hkeys. unfold h2, LO. rewrite Hr, !get_link_copy_other by discriminate. exact Hd.
  - rewrite Hkeys in Hv'.
    assert (Hall : forall engine', run_effect engine' h p st =
                                   inl (Error ("node not found: " ++ to_string v))).
    { intro engine'. rewrite (run_effect_eq _ _ _ _ Hv). cbv zeta.
      fold NO LO h2 nc lc. rewrite Hi. reflexivity. }
    exists v. split; [exact Hv' |]. split; [apply Hall |]. split.
    + intro engine'. now rewrite !Hall.
    + unfold commit. now rewrite Hall.
Qed.

(** * C2: a [linkDistance] of no supported type *)

(** C2 (as the code has it). A [linkDistance] that is neither a function,
    a number nor a string leaves [getLinkDistance] undefined, and it is
    never rejected: whether a run throws does not depend on [linkDistance]
    at all. *)
Theorem unsupported_link_distance_accepted (v : jsval) (r dmin dmax : Z) (c : Z * Z) :
  (forall f, v <> JFun f) -> (forall n, v <> JNum n) -> (forall s, v <> JStr s) ->
  link_distance (computeForces v r dmin dmax c) = None /\
  forall engine h p st,
    throws (run_effect engine h (with_linkDistance p v) st) = throws (run_effect engine h p st).
Proof.
  intros Hf Hn Hs. split.
  - destruct v; simpl; try reflexivity; exfalso; [eapply Hn | eapply Hs | eapply Hf]; reflexivity.
  - intros engine h p st. destruct p as [c0 ns ls ld rep dmn dmx it nc nbw lt].
    unfold run_effect, with_linkDistance. cbn [nodes links iterations linkDistance].
    destruct (copy_nodes h ns) as [h1 nodesCopy].
    destruct (copy_links h1 ls) as [h2 linksCopy].
    destruct (init_links _ h2 linksCopy 0); reflexivity.
Qed.

(** * C4: the "not yet computed" sentinel *)

(** C4. Before any run the hook returns [null] for both the computed nodes
    and the computed links, while a run on an empty graph stores, and the
    hook then returns, empty arrays: the two are different values. *)
Theorem not_yet_computed_sentinel
    (call : heap -> fid -> jsval -> jsval) (gnbc glc : heap -> jsval -> jsval)
    (engine : heap -> forces -> list loc -> list loc -> nat -> loc -> jsval * jsval)
    (h : heap) (p : props) (st : hook_state) :
  snd (useNetwork_output call gnbc glc h p initial_state) = (None, None) /\
  run_effect engine h (with_graph p [] []) st = inr (h, mkState (Some []) (Some [])) /\
  snd (useNetwork_output call gnbc glc h p (mkState (Some []) (Some []))) = (Some [], Some []) /\
  (None : option (list loc)) <> Some [].
Proof.
  split; [reflexivity |]. split; [reflexivity |]. split; [reflexivity | discriminate].
Qed.

(** * The styling pipeline's output *)

Lemma useNetwork_output_eq (call : heap -> fid -> jsval -> jsval) (gnbc glc : heap -> jsval -> jsval)
    (h : heap) (p : props) (st : hook_state) :
  useNetwork_output call gnbc glc h p st =
  (let NS := match currentNodes st with
             | Some ns => map (style_node gnbc (useNodeColor call (nodeColor p)) (nodeBorderWidth p) h) ns
             | None => []
             end in
   let h1 := (h ++ NS)%list in
   let LS := match currentLinks st with
             | Some ls => map (style_link glc (useLinkThickness call (linkThickness p)) h1) ls
             | None => []
             end in
   ((h1 ++ LS)%list,
    (option_map (fun ns => seq (length h) (length ns)) (currentNodes st),
     option_map (fun ls => seq (length h1) (length ls)) (currentLinks st)))).
Proof.
  unfold useNetwork_output, enhance_nodes, enhance_links, alloc_all.
  destruct (currentNodes st) as [ns |], (currentLinks st) as [ls |]; simpl;
    rewrite ?app_nil_r, ?length_map; reflexivity.
Qed.

Lemma read_styled (h rest : heap) (f : loc -> obj) (ns : list loc) (i : nat) (n : loc) :
  nth_error ns i = Some n -> read ((h ++ map f ns) ++ rest)%list (length h + i) = f n.
Proof.
  intro Hi. rewrite read_app_lt.
  - now apply read_alloc_nth.
  - rewrite length_app, length_map. assert (i < length ns) by (apply nth_error_Some; congruence). lia.
Qed.

Lemma get_style_node (gnbc gnc : heap -> jsval -> jsval) (w : jsval) (h : heap) (n : loc) :
  get (style_node gnbc gnc w h n) "color" = gnc h (JObj n) /\
  get (style_node gnbc gnc w h n) "borderWidth" = w /\
  get (style_node gnbc gnc w h n) "borderColor" = gnbc h (JObj n) /\
  (forall k, k <> "color" -> k <> "borderWidth" -> k <> "borderColor" ->
     get (style_node gnbc gnc w h n) k = get (read h n) k).
Proof.
  unfold style_node. split; [| split; [| split]].
  - rewrite !get_set_other by discriminate. apply get_set_same.
  - rewrite get_set_other by discriminate. apply get_set_same.
  - apply get_set_same.
  - intros k K1 K2 K3. rewrite !get_set_other by assumption. apply get_spread_nil.
Qed.

Lemma get_style_link (glc glt : heap -> jsval -> jsval) (h : heap) (l : loc) :
  forall k, k <> "thickness" -> k <> "color" -> get (style_link glc glt h l) k = get (read h l) k.
Proof.
  intros k K1 K2. unfold style_link. rewrite !get_set_other by assumption. apply get_spread_nil.
Qed.

(** * C6: the node color accessor *)

(** C6. With a function for [nodeColor] every computed node's [color] is
    that function applied to the node; with any other value it is that
    value itself, whatever the node. *)
Theorem node_color_accessor (call : heap -> fid -> jsval -> jsval) (gnbc glc : heap -> jsval -> jsval)
    (h : heap) (p : props) (ns : list loc) (ls : option (list loc)) :
  let '(h', (en, _)) := useNetwork_output call gnbc glc h p (mkState (Some ns) ls) in
  exists ens, en = Some ens /\ length ens = length ns /\
  forall i n e, nth_error ns i = Some n -> nth_error ens i = Some e ->
    (forall f, nodeColor p = JFun f -> get (read h' e) "color" = call h f (JObj n)) /\
    ((forall f, nodeColor p <> JFun f) -> get (read h' e) "color" = nodeColor p).
Proof.
  rewrite useNetwork_output_eq. cbv zeta. cbn [currentNodes currentLinks option_map].
  eexists; split; [reflexivity |]. split; [apply length_seq |].
  intros i n e Hn He.
  assert (Hi : i < length ns) by (apply nth_error_Some; congruence).
  rewrite nth_error_seq_lt in He by exact Hi.
  injection He as <-. rewrite (read_styled _ _ _ _ _ _ Hn).
  destruct (get_style_node gnbc (useNodeColor call (nodeColor p)) (nodeBorderWidth p) h n)
    as [Hc _]. rewrite Hc.
  unfold useNodeColor, normalize_accessor. split.
  - intros f Hf. now rewrite Hf.
  - intro Hf. destruct (nodeColor p); auto. exfalso; eapply Hf; reflexivity.
Qed.

(** * C7: the node border width *)

(** C7 (as the code has it). [nodeBorderWidth] is not normalized: every
    computed node's [borderWidth] is the configured value itself, the same
    for all nodes, whatever that value is (a function included). *)
Theorem node_border_width_verbatim (call : heap -> fid -> jsval -> jsval)
    (gnbc glc : heap -> jsval -> jsval) (h : heap) (p : props) (ns : list loc)
    (ls : option (list loc)) :
  let '(h', (en, _)) := useNetwork_output call gnbc glc h p (mkState (Some ns) ls) in
  exists ens, en = Some ens /\ length ens = length ns /\
  forall e, In e ens -> get (read h' e) "borderWidth" = nodeBorderWidth p.
Proof.
  rewrite useNetwork_output_eq. cbv zeta. cbn [currentNodes currentLinks option_map].
  eexists; split; [reflexivity |]. split; [apply length_seq |].
  intros e He. apply In_nth_error in He as [i He].
  assert (Hi : i < List.length ns).
  { assert (Hne : nth_error (A:=loc) (seq (List.length h) (List.length ns)) i <> None) by congruence.
    apply nth_error_Some in Hne. rewrite length_seq in Hne. exact Hne. }
  rewrite nth_error_seq_lt in He by exact Hi. injection He as <-.
  destruct (nth_error ns i) as [n |] eqn:Hn; [| apply nth_error_None in Hn; lia].
  rewrite (read_styled _ _ _ _ _ _ Hn).
  apply (get_style_node gnbc (useNodeColor call (nodeColor p)) (nodeBorderWidth p) h n).
Qed.

(** * C8: the styling pipeline copies the records *)

Lemma styled_heap_facts (fN : loc -> obj) (fL : heap -> loc -> obj) (h : heap) (ns ls : list loc) :
  let h1 := (h ++ map fN ns)%list in
  let h' := (h1 ++ map (fL h1) ls)%list in
  (forall l, l < length h -> read h' l = read h l) /\
  NoDup (seq (length h) (length ns) ++ seq (length h1) (length ls))%list /\
  (forall e, In e (seq (length h) (length ns) ++ seq (length h1) (length ls))%list -> length h <= e) /\
  (forall i n e, nth_error ns i = Some n -> nth_error (seq (length h) (length ns)) i = Some e ->
     read h' e = fN n) /\
  (forall i l e, nth_error ls i = Some l -> nth_error (seq (length h1) (length ls)) i = Some e ->
     read h' e = fL h1 l).
Proof.
  intros h1 h'. unfold h', h1.
  assert (Hl1 : length (h ++ map fN ns)%list = length h + length ns)
    by (rewrite length_app, length_map; reflexivity).
  split; [| split; [| split; [| split]]].
  - intros l Hl. rewrite !read_app_lt; [reflexivity | exact Hl | rewrite Hl1; lia].
  - rewrite Hl1, <- seq_app. apply seq_NoDup.
  - intros e He. rewrite Hl1, <- seq_app in He. apply in_seq in He. lia.
  - intros i n e Hn He.
    assert (Hi : i < List.length ns) by (apply nth_error_Some; congruence).
    rewrite nth_error_seq_lt in He by exact Hi. injection He as <-.
    apply (read_styled _ _ _ _ _ _ Hn).
  - intros i l e Hl He.
    assert (Hi : i < List.length ls) by (apply nth_error_Some; congruence).
    rewrite nth_error_seq_lt in He by exact Hi. injection He as <-.
    apply (read_alloc_nth _ _ _ _ _ Hl).
Qed.

(** C8. The styling maps write nothing into the heap they read: every
    object that existed before, the stored node and link records included,
    reads the same afterwards. The styled records are fresh objects, all
    distinct, one per stored record; a styled node carries every field of
    its stored node ([x] and [y] in particular) except [color],
    [borderWidth] and [borderColor], and a styled link every field of its
    stored link except [thickness] and [color]. *)
Theorem styling_copies_records (call : heap -> fid -> jsval -> jsval)
    (gnbc glc : heap -> jsval -> jsval) (h : heap) (p : props) (st : hook_state) :
  styled_input h st ->
  let '(h', (en, el)) := useNetwork_output call gnbc glc h p st in
  (forall l, l < length h -> read h' l = read h l) /\
  NoDup (or_empty en ++ or_empty el)%list /\
  (forall e, In e (or_empty en ++ or_empty el)%list -> length h <= e) /\
  (forall ns, currentNodes st = Some ns ->
     exists ens, en = Some ens /\ length ens = length ns /\
     forall i n e, nth_error ns i = Some n -> nth_error ens i = Some e ->
       get (read h' e) "x" = get (read h n) "x" /\ get (read h' e) "y" = get (read h n) "y" /\
       forall k, k <> "color" -> k <> "borderWidth" -> k <> "borderColor" ->
         get (read h' e) k = get (read h n) k) /\
  (forall ls, currentLinks st = Some ls ->
     exists els, el = Some els /\ length els = length ls /\
     forall i l e, nth_error ls i = Some l -> nth_error els i = Some e ->
       forall k, k <> "thickness" -> k <> "color" -> get (read h' e) k = get (read h l) k).
Proof.
  intros [Hn Hl]. rewrite useNetwork_output_eq. cbv zeta.
  set (fN := style_node gnbc (useNodeColor call (nodeColor p)) (nodeBorderWidth p) h).
  set (fL := style_link glc (useLinkThickness call (linkThickness p))).
  assert (Hnode : forall h' n e, read h' e = fN n -> forall k, k <> "color" -> k <> "borderWidth" ->
                    k <> "borderColor" -> get (read h' e) k = get (read h n) k).
  { intros h' n e E k K1 K2 K3. rewrite E. unfold fN.
    apply (get_style_node gnbc (useNodeColor call (nodeColor p)) (nodeBorderWidth p) h n);
      assumption. }
  assert (Hlink : forall (h1 h' : heap) l e, l < length h -> read h1 l = read h l ->
                    read h' e = fL h1 l -> forall k, k <> "thickness" -> k <> "color" ->
                    get (read h' e) k = get (read h l) k).
  { intros h1 h' l e Bl R1 E k K1 K2. rewrite E. unfold fL.
    rewrite (get_style_link glc (useLinkThickness call (linkThickness p)) h1 l k K1 K2), R1.
    reflexivity. }
  destruct (currentNodes st) as [ns |], (currentLinks st) as [ls |];
    [ destruct (styled_heap_facts fN fL h ns ls) as [F1 [F2 [F3 [F4 F5]]]]
    | destruct (styled_heap_facts fN fL h ns []) as [F1 [F2 [F3 [F4 F5]]]]
    | destruct (styled_heap_facts fN fL h [] ls) as [F1 [F2 [F3 [F4 F5]]]]
    | destruct (styled_heap_facts fN fL h [] []) as [F1 [F2 [F3 [F4 F5]]]] ];
    cbn [or_empty option_map map] in *;
    (split; [exact F1 |]); (split; [rewrite ?app_nil_r in *; exact F2 |]);
    (split; [intros e He; apply F3; rewrite ?app_nil_r in *; exact He |]);
    split; try (intros ? E; discriminate E);
    intros xs E; injection E as <-; eexists; (split; [reflexivity |]);
    (split; [apply length_seq |]).
  all: try (intros i n e Hi He; pose proof (Hnode _ _ _ (F4 i n e Hi He)) as Hk;
            split; [apply Hk; discriminate |]; split; [apply Hk; discriminate | exact Hk]).
  all: intros i l e Hi He;
       assert (Bl : l < length h) by (rewrite Forall_forall in Hl; apply Hl; eapply nth_error_In; eauto);
       refine (Hlink _ _ l e Bl _ (F5 i l e Hi He)); rewrite read_app_lt by exact Bl; reflexivity.
Qed.

(** * C10: the id of a link *)

(** C10. The [id] of every computed link is the caller's link's own [id]
    when its record has one; only when it has none is it the derived
    [`${source}.${target}`], written from the caller's [source] and
    [target] (the spread puts the derived [id] first). *)
Theorem link_id_spread_order
    (engine : heap -> forces -> list loc -> list loc -> nat -> loc -> jsval * jsval)
    (call : heap -> fid -> jsval -> jsval) (gnbc glc : heap -> jsval -> jsval)
    (h : heap) (p : props) (st : hook_state) (h' : heap) (st' : hook_state) :
  valid_input h p -> run_effect engine h p st = inr (h', st') ->
  let '(h'', (_, el)) := useNetwork_output call gnbc glc h' p st' in
  exists els, el = Some els /\ length els = length (links p) /\
  forall i l e, nth_error (links p) i = Some l -> nth_error els i = Some e ->
    get (read h'' e) "id" =
    match get_opt (read h l) "id" with
    | Some v => v
    | None => JStr (to_string (get (read h l) "source") ++ "." ++ to_string (get (read h l) "target"))
    end.
Proof.
  intros Hv Hrun.
  destruct (run_effect_inv _ _ _ _ _ _ Hv Hrun) as [h3 [Ei [-> ->]]].
  rewrite useNetwork_output_eq. cbv zeta. cbn [currentNodes currentLinks option_map].
  eexists; split; [reflexivity |]. split; [rewrite !length_seq; reflexivity |].
  intros i l e Hi He.
  set (NO := map (fun l => spread [] (read h l)) (nodes p)) in *.
  set (h2 := ((h ++ NO) ++ map (fun l => link_copy (read h l)) (links p))%list) in *.
  set (nc := seq (length h) (length (nodes p))) in *.
  set (lc := seq (length h + length (nodes p)) (length (links p))) in *.
  set (pos := engine h3 _ nc lc (iterations p)).
  set (h4 := place_nodes pos h3 nc).
  set (h5 := set_previous (currentNodes st) h4 lc).
  set (h6 := (h5 ++ _)%list).
  assert (Bi : i < List.length (links p)) by (apply nth_error_Some; congruence).
  assert (HlenNO : length (h ++ NO)%list = length h + length (nodes p))
    by (unfold NO; rewrite length_app, length_map; reflexivity).
  assert (Hlen5 : length h5 = length h + length (nodes p) + length (links p)).
  { unfold h5, h4. rewrite (proj1 (set_previous_frame _ _ _)), (proj1 (place_nodes_frame _ _ _)).
    rewrite (proj1 (init_links_frame _ _ _ _ _ Ei)). unfold h2.
    rewrite length_app, HlenNO, length_map. reflexivity. }
  assert (Hlc : nth_error lc i = Some (length h + length (nodes p) + i))
    by (apply nth_error_seq_lt; exact Bi).
  rewrite nth_error_seq_lt in He by (unfold lc; rewrite length_seq; exact Bi). injection He as <-.
  unfold h6. rewrite (read_alloc_nth _ _ _ _ _ Hlc).
  rewrite get_style_link by discriminate.
  rewrite read_app_lt by lia.
  unfold h5. rewrite (proj2 (proj2 (set_previous_frame _ _ _))) by discriminate.
  unfold h4. rewrite (proj2 (proj2 (place_nodes_frame _ _ _))) by discriminate.
  rewrite (proj2 (proj2 (init_links_frame _ _ _ _ _ Ei))) by discriminate.
  unfold h2. rewrite <- HlenNO. rewrite (read_alloc_nth _ _ _ _ _ Hi).
  apply get_link_copy_id.
Qed.

(** * Further properties: link resolution, copies and transitions *)

(** What [init_links] does to each link it goes through: [index] set to
    its position, and both ends replaced by what [resolve_end] gives for
    the end as it was. *)
Lemma init_links_spec (m : list (jsval * loc)) (h : heap) (ls : list loc) (i : nat) (h' : heap) :
  init_links m h ls i = inr h' -> NoDup ls -> Forall (fun l => l < length h) ls ->
  forall k l, nth_error ls k = Some l ->
    get (read h' l) "index" = JNum (Z.of_nat (i + k)) /\
    resolve_end m (get (read h l) "source") = inr (get (read h' l) "source") /\
    resolve_end m (get (read h l) "target") = inr (get (read h' l) "target").
Proof.
  revert h i; induction ls as [| l ls IH]; intros h i H Hnd Hv k l0 Hk; [destruct k; discriminate |].
  simpl in H.
  inversion Hnd as [| ? ? Hnot Hnd']; subst.
  inversion Hv as [| ? ? Hl Hv']; subst.
  split_lets H.
  pose proof (init_links_frame _ _ _ _ _ H) as [F1 [F2 F3]].
  destruct k as [| k]; simpl in Hk.
  - injection Hk as <-. rewrite F2 by exact Hnot.
    rewrite get_assign_other_key in E by discriminate.
    rewrite !get_assign_other_key in E0 by discriminate.
    split; [| split].
    + rewrite !get_assign_other_key by discriminate. rewrite get_assign_same by exact Hl.
      do 2 f_equal; lia.
    + rewrite get_assign_other_key by discriminate.
      rewrite get_assign_same by (rewrite length_assign; exact Hl). exact E.
    + rewrite get_assign_same by (rewrite !length_assign; exact Hl). exact E0.
  - assert (Hne : l <> l0) by (intro; subst; apply Hnot; eapply nth_error_In; eauto).
    assert (Hv3 : Forall (fun a => a < length (assign (assign (assign h l "index" (JNum (Z.of_nat i)))
                    l "source" j) l "target" j0)) ls)
      by (eapply Forall_impl; [| exact Hv']; intros a Ha; simpl; rewrite !length_assign; exact Ha).
    destruct (IH _ _ H Hnd' Hv3 k l0 Hk) as [I1 [I2 I3]].
    rewrite !read_assign_other in I2, I3 by exact Hne.
    split; [| split]; [rewrite I1; do 2 f_equal; lia | exact I2 | exact I3].
Qed.

(** [nodeById.get(k)] is the value of the last entry with key [k]. *)
Lemma map_get_last (m : list (jsval * loc)) (k : jsval) (l : loc) :
  map_get m k = Some l ->
  exists j, nth_error m j = Some (k, l) /\
    forall j' k' l', j < j' -> nth_error m j' = Some (k', l') -> k' <> k.
Proof.
  revert l; induction m as [| [k0 l0] m IH]; intro l; simpl; [discriminate |].
  destruct (map_get m k) as [l1 |] eqn:E.
  - intro Heq. injection Heq as <-. destruct (IH l1 eq_refl) as [j [Hj Hlater]].
    exists (S j). split; [exact Hj |].
    intros [| j'] k' l' Hlt Hn; [lia |]. simpl in Hn. apply (Hlater j' k' l'); [lia | exact Hn].
  - destruct (strict_eq k k0) eqn:Es; [| discriminate].
    intro Heq. injection Heq as <-. apply strict_eq_true in Es. subst k0.
    exists 0. split; [reflexivity |].
    intros [| j'] k' l' Hlt Hn; [lia |]. simpl in Hn. intros ->.
    apply map_get_None in E. apply E. change k with (fst (k, l')). apply in_map.
    eapply nth_error_In; exact Hn.
Qed.

Lemma node_by_id_nth (h rest : heap) (ns : list loc) (j : nat) :
  nth_error (node_by_id ((h ++ map (fun l => spread [] (read h l)) ns) ++ rest)%list
               (seq (length h) (length ns))) j =
  option_map (fun n => (get (read h n) "id", length h + j)) (nth_error ns j).
Proof.
  unfold node_by_id. rewrite nth_error_map.
  destruct (nth_error ns j) as [n |] eqn:En.
  - assert (Hj : j < List.length ns) by (apply nth_error_Some; congruence).
    rewrite nth_error_seq_lt by exact Hj. simpl.
    rewrite (read_styled _ _ _ _ _ _ En). reflexivity.
  - apply nth_error_None in En.
    rewrite (proj2 (nth_error_None (A:=loc) (seq (length h) (length ns)) j)) by (rewrite length_seq; exact En).
    reflexivity.
Qed.

(** An id end resolves to the copy of the last caller node with that id. *)
Lemma resolve_last (h rest : heap) (ns : list loc) (v w : jsval) :
  is_object v = false ->
  resolve_end (node_by_id ((h ++ map (fun l => spread [] (read h l)) ns) ++ rest)%list
                 (seq (length h) (length ns))) v = inr w ->
  last_node_with_id h ns (seq (length h) (length ns)) v w.
Proof.
  intros Ho Hr. rewrite resolve_end_id in Hr by exact Ho. unfold find in Hr.
  destruct (map_get _ v) as [c |] eqn:Eg; [| discriminate]. injection Hr as <-.
  destruct (map_get_last _ _ _ Eg) as [j [Hj Hlater]].
  rewrite node_by_id_nth in Hj.
  destruct (nth_error ns j) as [n |] eqn:En; [| discriminate]. simpl in Hj.
  injection Hj as Hid Hc.
  assert (Bj : j < List.length ns) by (apply nth_error_Some; congruence).
  exists j, n, c. split; [exact En |]. split; [rewrite nth_error_seq_lt by exact Bj; rewrite Hc; reflexivity |].
  split; [reflexivity |]. split; [exact Hid |].
  intros j' n' Hlt Hn'.
  apply (Hlater j' (get (read h n') "id") (length h + j') Hlt).
  rewrite node_by_id_nth, Hn'. reflexivity.
Qed.

(** [currentNodes.find(n => n.id === id)] is the first node with that id. *)
Lemma find_by_id_first (h : heap) (ns : list loc) (id : jsval) :
  first_node_with_id h ns id (find_by_id h ns id).
Proof.
  induction ns as [| n ns IH]; simpl.
  - right. split; [reflexivity | tauto].
  - destruct (strict_eq (get (read h n) "id") id) eqn:E.
    + left. exists 0, n. apply strict_eq_true in E. split; [reflexivity |].
      split; [reflexivity |]. split; [exact E |]. intros j' n' Hlt; lia.
    + assert (Hne : get (read h n) "id" <> id)
        by (intro Heq; apply strict_eq_true in Heq; congruence).
      destruct IH as [[j [n' [H1 [H2 [H3 H4]]]]] | [H1 H2]].
      * left. exists (S j), n'. split; [exact H1 |]. split; [exact H2 |]. split; [exact H3 |].
        intros [| j'] n'' Hlt Hn''; simpl in Hn''.
        -- injection Hn'' as <-. exact Hne.
        -- apply (H4 j' n''); [lia | exact Hn''].
      * right. split; [exact H1 |]. intros n' [<- | Hin]; [exact Hne | exact (H2 n' Hin)].
Qed.

(** [init_links] goes through when every end is an id some node has. *)
Lemma init_links_total (m : list (jsval * loc)) (h : heap) (ls : list loc) (i : nat) :
  NoDup ls -> Forall (fun l => l < length h) ls ->
  (forall l, In l ls ->
     is_object (get (read h l) "source") = false /\ is_object (get (read h l) "target") = false /\
     In (get (read h l) "source") (map fst m) /\ In (get (read h l) "target") (map fst m)) ->
  exists h', init_links m h ls i = inr h'.
Proof.
  revert h i; induction ls as [| l ls IH]; intros h i Hnd Hv Hids; [eexists; reflexivity |].
  inversion Hnd as [| ? ? Hnot Hnd']; subst.
  inversion Hv as [| ? ? Hl Hv']; subst.
  destruct (Hids l (or_introl eq_refl)) as [Hs [Ht [Is It]]].
  simpl.
  rewrite get_assign_other_key by discriminate.
  rewrite resolve_end_id by exact Hs. unfold find at 1.
  destruct (map_get m (get (read h l) "source")) as [n |] eqn:Es;
    [| apply map_get_None in Es; contradiction].
  rewrite get_assign_other_key by discriminate.
  rewrite get_assign_other_key by discriminate.
  rewrite resolve_end_id by exact Ht. unfold find at 1.
  destruct (map_get m (get (read h l) "target")) as [n' |] eqn:Et;
    [| apply map_get_None in Et; contradiction].
  simpl. apply IH; auto.
  - eapply Forall_impl; [| exact Hv']. intros a Ha. simpl. rewrite !length_assign. exact Ha.
  - intros l1 Hl1. assert (l <> l1) by (intro; subst; contradiction).
    rewrite !read_assign_other by assumption. apply Hids. right; exact Hl1.
Qed.

(** After a run the [i]-th node copy carries every property of the
    caller's [i]-th node but [x] and [y]. *)
Lemma run_node_copies (engine : heap -> forces -> list loc -> list loc -> nat -> loc -> jsval * jsval)
    (h : heap) (p : props) (st : hook_state) (h' : heap) (st' : hook_state) :
  valid_input h p -> run_effect engine h p st = inr (h', st') ->
  forall j n, nth_error (nodes p) j = Some n ->
  forall k, k <> "x" -> k <> "y" -> get (read h' (length h + j)) k = get (read h n) k.
Proof.
  intros Hv Hrun j n Hn k Kx Ky.
  destruct (run_effect_inv _ _ _ _ _ _ Hv Hrun) as [h3 [Ei [-> _]]].
  assert (Bj : j < List.length (nodes p)) by (apply nth_error_Some; congruence).
  assert (Hout : ~ In (length h + j) (seq (length h + length (nodes p)) (length (links p))))
    by (intro Hin; apply in_seq in Hin; lia).
  rewrite (proj1 (proj2 (set_previous_frame _ _ _))) by exact Hout.
  rewrite (proj2 (proj2 (place_nodes_frame _ _ _))) by assumption.
  rewrite (proj1 (proj2 (init_links_frame _ _ _ _ _ Ei))) by exact Hout.
  rewrite (read_styled _ _ _ _ _ _ Hn). cbv beta. apply get_spread_nil.
Qed.


(** A run whose link ends are all ids of caller nodes does not throw. *)
Theorem run_succeeds_when_ids_resolve
    (engine : heap -> forces -> list loc -> list loc -> nat -> loc -> jsval * jsval)
    (h : heap) (p : props) (st : hook_state) :
  valid_input h p ->
  (forall l, In l (links p) ->
     is_object (get (read h l) "source") = false /\ is_object (get (read h l) "target") = false /\
     In (get (read h l) "source") (node_ids h p) /\ In (get (read h l) "target") (node_ids h p)) ->
  exists h' st', run_effect engine h p st = inr (h', st').
Proof.
  intros Hv Hids.
  pose proof Hv as [Hvn Hvl].
  set (NO := map (fun l => spread [] (read h l)) (nodes p)).
  set (LO := map (fun l => link_copy (read h l)) (links p)).
  set (h2 := ((h ++ NO) ++ LO)%list).
  set (nc := seq (length h) (length (nodes p))).
  set (lc := seq (length h + length (nodes p)) (length (links p))).
  assert (HlenNO : length (h ++ NO)%list = length h + length (nodes p))
    by (unfold NO; now rewrite length_app, length_map).
  assert (Hlc : lc = seq (length (h ++ NO)%list) (length (links p))) by (rewrite HlenNO; reflexivity).
  assert (Hkeys : map fst (node_by_id h2 nc) = node_ids h p)
    by (unfold h2, NO, nc; rewrite node_by_id_keys by exact Hvn; reflexivity).
  destruct (init_links_total (node_by_id h2 nc) h2 lc 0) as [h3 Ei].
  - apply seq_NoDup.
  - apply Forall_forall. intros l Hl. apply in_seq in Hl.
    unfold h2, LO, NO. rewrite !length_app, !length_map. lia.
  - intros l Hl. rewrite Hlc in Hl.
    destruct (read_alloc_range (h ++ NO)%list (fun l => link_copy (read h l)) (links p) l Hl)
      as [l1 [Hin1 Hr]].
    rewrite Hkeys. unfold h2, LO. rewrite Hr, !get_link_copy_other by discriminate. auto.
  - rewrite (run_effect_eq _ _ _ _ Hv). cbv zeta. fold NO LO h2 nc lc. rewrite Ei.
    eexists; eexists; reflexivity.
Qed.

(** After a run whose link ends are ids, the [i]-th link copy has [index]
    [i], and each of its ends is the copy of the LAST caller node whose id
    is the end's id ([new Map] keeps the last entry of a repeated key). *)
Theorem run_resolves_links_to_last_node
    (engine : heap -> forces -> list loc -> list loc -> nat -> loc -> jsval * jsval)
    (h : heap) (p : props) (st : hook_state) (h' : heap) (st' : hook_state) :
  valid_input h p ->
  (forall l, In l (links p) ->
     is_object (get (read h l) "source") = false /\ is_object (get (read h l) "target") = false) ->
  run_effect engine h p st = inr (h', st') ->
  exists nc lc, st' = mkState (Some nc) (Some lc) /\
  forall i l e, nth_error (links p) i = Some l -> nth_error lc i = Some e ->
    get (read h' e) "index" = JNum (Z.of_nat i) /\
    last_node_with_id h (nodes p) nc (get (read h l) "source") (get (read h' e) "source") /\
    last_node_with_id h (nodes p) nc (get (read h l) "target") (get (read h' e) "target").
Proof.
  intros Hv Hobj Hrun. pose proof Hv as [Hvn Hvl].
  destruct (run_effect_inv _ _ _ _ _ _ Hv Hrun) as [h3 [Ei [-> ->]]].
  set (NO := map (fun l => spread [] (read h l)) (nodes p)) in *.
  set (h2 := ((h ++ NO) ++ map (fun l => link_copy (read h l)) (links p))%list) in *.
  set (nc := seq (length h) (length (nodes p))) in *.
  set (lc := seq (length h + length (nodes p)) (length (links p))) in *.
  exists nc, lc. split; [reflexivity |].
  intros i l e Hl He.
  assert (HlenNO : length (h ++ NO)%list = length h + length (nodes p))
    by (unfold NO; rewrite length_app, length_map; reflexivity).
  assert (Bound : Forall (fun a => a < length h2) lc).
  { apply Forall_forall. intros a Ha. unfold lc in Ha. apply in_seq in Ha.
    unfold h2. rewrite length_app, HlenNO, length_map. lia. }
  destruct (init_links_spec _ _ _ _ _ Ei (seq_NoDup _ _) Bound i e He) as [I1 [I2 I3]].
  assert (Bi : i < List.length (links p)) by (apply nth_error_Some; congruence).
  assert (Ee : e = length (h ++ NO)%list + i).
  { unfold lc in He. rewrite nth_error_seq_lt in He by exact Bi. rewrite HlenNO. congruence. }
  assert (R2 : read h2 e = link_copy (read h l)) by (rewrite Ee; unfold h2; exact (read_alloc_nth _ (fun l => link_copy (read h l)) _ _ _ Hl)).
  rewrite R2, !get_link_copy_other in I2, I3 by discriminate.
  assert (Fh : forall k, k <> "x" -> k <> "y" -> k <> "previousSource" -> k <> "previousTarget" ->
                 get (read (set_previous (currentNodes st)
                   (place_nodes (engine h3 (computeForces (linkDistance p) (repulsivity p)
                      (distanceMin p) (distanceMax p) (center p)) nc lc (iterations p)) h3 nc) lc) e) k
                 = get (read h3 e) k).
  { intros k K1 K2 K3 K4.
    rewrite (proj2 (proj2 (set_previous_frame _ _ _))) by assumption.
    rewrite (proj2 (proj2 (place_nodes_frame _ _ _))) by assumption. reflexivity. }
  destruct (Hobj l (nth_error_In _ _ Hl)) as [Os Ot].
  rewrite !Fh by discriminate.
  split; [exact I1 |].
  split.
  - exact (resolve_last h (map (fun l => link_copy (read h l)) (links p)) (nodes p) _ _ Os I2).
  - exact (resolve_last h (map (fun l => link_copy (read h l)) (links p)) (nodes p) _ _ Ot I3).
Qed.

(** The [thickness] of every computed link is the [linkThickness]
    function's result on the stored link, or, for any other
    [linkThickness], that value itself; its [color] is [getLinkColor] of
    the stored link. The heap the accessors see reads every earlier object
    as before. *)
Theorem link_style_accessors (call : heap -> fid -> jsval -> jsval)
    (gnbc glc : heap -> jsval -> jsval) (h : heap) (p : props) (ns : option (list loc))
    (ls : list loc) :
  let '(h', (_, el)) := useNetwork_output call gnbc glc h p (mkState ns (Some ls)) in
  exists hc els, el = Some els /\ length els = length ls /\
  (forall l, l < length h -> read hc l = read h l) /\
  forall i l e, nth_error ls i = Some l -> nth_error els i = Some e ->
    (forall f, linkThickness p = JFun f -> get (read h' e) "thickness" = call hc f (JObj l)) /\
    ((forall f, linkThickness p <> JFun f) -> get (read h' e) "thickness" = linkThickness p) /\
    get (read h' e) "color" = glc hc (JObj l).
Proof.
  rewrite useNetwork_output_eq. cbv zeta. cbn [currentNodes currentLinks option_map].
  set (NS := match ns with Some _ => _ | None => [] end).
  exists (h ++ NS)%list. eexists. split; [reflexivity |]. split; [apply length_seq |].
  split; [intros l Hl; apply read_app_lt; exact Hl |].
  intros i l e Hl He.
  assert (Hi : i < List.length ls) by (apply nth_error_Some; congruence).
  rewrite nth_error_seq_lt in He by exact Hi. injection He as <-.
  rewrite (read_alloc_nth _ _ _ _ _ Hl). unfold style_link.
  rewrite get_set_same. rewrite get_set_other by discriminate. rewrite get_set_same.
  split; [| split; [| reflexivity]]; unfold useLinkThickness, normalize_accessor.
  - intros f Hf. now rewrite Hf.
  - intro Hf. destruct (linkThickness p); auto. exfalso; eapply Hf; reflexivity.
Qed.

(** What NetworkNodes animates a computed node to: [x], [y] and [radius]
    are the stored node's, [color] is [getNodeColor] of it, [borderWidth]
    the configured value and [borderColor] [getNodeBorderColor] of it;
    [scale] is [1] for the regular transition and [0] for the enter and the
    exit transitions, which are otherwise the same. *)
Theorem node_transitions (call : heap -> fid -> jsval -> jsval) (gnbc glc : heap -> jsval -> jsval)
    (h : heap) (p : props) (ns : list loc) (ls : option (list loc)) :
  let '(h', (en, _)) := useNetwork_output call gnbc glc h p (mkState (Some ns) ls) in
  exists ens, en = Some ens /\ length ens = length ns /\
  forall i n e, nth_error ns i = Some n -> nth_error ens i = Some e ->
    let target (scale : Z) : obj :=
      [("x", get (read h n) "x"); ("y", get (read h n) "y"); ("radius", get (read h n) "radius");
       ("color", useNodeColor call (nodeColor p) h (JObj n)); ("borderWidth", nodeBorderWidth p);
       ("borderColor", gnbc h (JObj n)); ("scale", JNum scale)] in
    getRegularTransition h' e = target 1%Z /\
    getEnterTransition h' e = target 0%Z /\
    getExitTransition h' e = target 0%Z.
Proof.
  rewrite useNetwork_output_eq. cbv zeta. cbn [currentNodes currentLinks option_map].
  eexists; split; [reflexivity |]. split; [apply length_seq |].
  intros i n e Hn He.
  assert (Hi : i < List.length ns) by (apply nth_error_Some; congruence).
  rewrite nth_error_seq_lt in He by exact Hi. injection He as <-.
  unfold getRegularTransition, getEnterTransition, getExitTransition.
  rewrite (read_styled _ _ _ _ _ _ Hn).
  destruct (get_style_node gnbc (useNodeColor call (nodeColor p)) (nodeBorderWidth p) h n)
    as [G1 [G2 [G3 G4]]].
  rewrite G1, G2, G3, !G4 by discriminate.
  split; [reflexivity | split; reflexivity].
Qed.

(** After a run, NetworkNodes' transition keys ([node.id]) are the ids of
    the caller's nodes in the caller's order, and the radius it animates
    each node to is the caller's node's [radius]: the hook never sets one. *)
Theorem transition_keys_are_input_ids
    (engine : heap -> forces -> list loc -> list loc -> nat -> loc -> jsval * jsval)
    (call : heap -> fid -> jsval -> jsval) (gnbc glc : heap -> jsval -> jsval)
    (h : heap) (p : props) (st : hook_state) (h1 : heap) (st1 : hook_state) :
  valid_input h p -> run_effect engine h p st = inr (h1, st1) ->
  let '(h2, (en, _)) := useNetwork_output call gnbc glc h1 p st1 in
  exists ens, en = Some ens /\
  map (transition_key h2) ens = map (fun n => get (read h n) "id") (nodes p) /\
  forall i n e, nth_error (nodes p) i = Some n -> nth_error ens i = Some e ->
    get (getRegularTransition h2 e) "radius" = get (read h n) "radius".
Proof.
  intros Hv Hrun.
  pose proof (run_node_copies _ _ _ _ _ _ Hv Hrun) as Hcopy.
  destruct (run_effect_inv _ _ _ _ _ _ Hv Hrun) as [h3 [_ [_ ->]]].
  rewrite useNetwork_output_eq. cbv zeta. cbn [currentNodes currentLinks option_map].
  set (nc := seq (length h) (length (nodes p))).
  set (fN := style_node gnbc (useNodeColor call (nodeColor p)) (nodeBorderWidth p) h1).
  set (rest := map (style_link _ _ _) _).
  assert (Hnc : forall j n, nth_error (nodes p) j = Some n -> nth_error nc j = Some (length h + j)).
  { intros j n Hn. apply nth_error_seq_lt. apply nth_error_Some. congruence. }
  assert (Hat : forall j n k, nth_error (nodes p) j = Some n -> k <> "x" -> k <> "y" ->
            k <> "color" -> k <> "borderWidth" -> k <> "borderColor" ->
            get (read ((h1 ++ map fN nc) ++ rest)%list (length h1 + j)) k = get (read h n) k).
  { intros j n k Hn K1 K2 K3 K4 K5.
    rewrite (read_styled _ _ _ _ _ _ (Hnc j n Hn)). unfold fN.
    rewrite (proj2 (proj2 (proj2 (get_style_node _ _ _ _ _)))) by assumption.
    apply Hcopy; assumption. }
  eexists; split; [reflexivity |]. split.
  - apply nth_error_ext. intro j. rewrite !nth_error_map.
    destruct (nth_error (nodes p) j) as [n |] eqn:Hn.
    + unfold nc. rewrite nth_error_seq_lt
        by (rewrite length_seq; apply nth_error_Some; congruence).
      simpl. unfold transition_key. f_equal. apply Hat; [exact Hn | discriminate ..].
    + apply nth_error_None in Hn.
      match goal with
      | |- option_map _ ?t = _ => destruct t as [x |] eqn:Ex
      end; [| reflexivity].
      exfalso. assert (Ex' : j < length (seq (length h1) (length nc)))
        by (apply nth_error_Some; intro E; unfold loc in *; congruence).
      clear Ex; rename Ex' into Ex.
      unfold nc in Ex. rewrite !length_seq in Ex. lia.
  - intros i n e Hn He.
    assert (Bi : i < List.length nc) by (unfold nc; rewrite length_seq; apply nth_error_Some; congruence).
    rewrite nth_error_seq_lt in He by exact Bi. injection He as <-.
    unfold getRegularTransition. simpl get at 1.
    apply Hat; [exact Hn | discriminate ..].
Qed.

(** On a run after an earlier one, a link's [previousSource]
    ([previousTarget]) is the FIRST stored node of the earlier run whose id
    is the id of the link's resolved source (target), or [undefined]
    ([Array.prototype.find] stops at the first match). *)
Theorem previous_is_first_match
    (engine : heap -> forces -> list loc -> list loc -> nat -> loc -> jsval * jsval)
    (h : heap) (p : props) (st : hook_state) (h' : heap) (st' : hook_state) (ns : list loc) :
  valid_input h p -> ends_ok h p -> valid_state h st ->
  run_effect engine h p st = inr (h', st') -> currentNodes st = Some ns ->
  exists lc, currentLinks st' = Some lc /\
  forall l, In l lc ->
    exists s t, get (read h' l) "source" = JObj s /\ get (read h' l) "target" = JObj t /\
      first_node_with_id h' ns (get (read h' s) "id") (get (read h' l) "previousSource") /\
      first_node_with_id h' ns (get (read h' t) "id") (get (read h' l) "previousTarget").
Proof.
  intros Hv Hends Hst Hrun Hcur.
  destruct (run_links_resolved _ _ _ _ _ _ Hv Hends Hst Hrun) as [-> [_ Hall]].
  eexists; split; [reflexivity |].
  intros l Hl. destruct (Hall l Hl) as [[s [Es _]] [[t [Et _]] [Hps Hpt]]].
  exists s, t. split; [exact Es |]. split; [exact Et |].
  rewrite Hps, Hpt, Es, Et, Hcur. simpl.
  split; apply find_by_id_first.
Qed.

(** * Witnesses and counterexamples *)

(** C1: the link [a -> z] makes the run throw. *)
Lemma dangling_link_throws_witness :
  valid_input ex_heap (ex_props [0; 1] [3]) /\
  (forall l, In l (links (ex_props [0; 1] [3])) ->
     is_object (get (read ex_heap l) "source") = false /\
     is_object (get (read ex_heap l) "target") = false) /\
  (exists l, In l (links (ex_props [0; 1] [3])) /\
     (~ In (get (read ex_heap l) "source") (node_ids ex_heap (ex_props [0; 1] [3])) \/
      ~ In (get (read ex_heap l) "target") (node_ids ex_heap (ex_props [0; 1] [3])))) /\
  exists v, ~ In v (node_ids ex_heap (ex_props [0; 1] [3])) /\
    run_effect ex_engine ex_heap (ex_props [0; 1] [3]) initial_state =
      inl (Error ("node not found: " ++ to_string v)) /\
    (forall engine', run_effect engine' ex_heap (ex_props [0; 1] [3]) initial_state =
                     run_effect ex_engine ex_heap (ex_props [0; 1] [3]) initial_state) /\
    commit ex_engine ex_heap (ex_props [0; 1] [3]) initial_state = (ex_heap, initial_state).
Proof.
  assert (H1 : valid_input ex_heap (ex_props [0; 1] [3])) by (split; forall_lt).
  assert (H2 : forall l, In l (links (ex_props [0; 1] [3])) ->
                 is_object (get (read ex_heap l) "source") = false /\
                 is_object (get (read ex_heap l) "target") = false)
    by (intros l [<- | []]; split; reflexivity).
  assert (H3 : exists l, In l (links (ex_props [0; 1] [3])) /\
                 (~ In (get (read ex_heap l) "source") (node_ids ex_heap (ex_props [0; 1] [3])) \/
                  ~ In (get (read ex_heap l) "target") (node_ids ex_heap (ex_props [0; 1] [3])))).
  { exists 3. split; [left; reflexivity |]. right. vm_compute.
    intros [E | [E | []]]; discriminate E. }
  split; [exact H1 |]. split; [exact H2 |]. split; [exact H3 |].
  exact (dangling_link_throws ex_engine ex_heap (ex_props [0; 1] [3]) initial_state H1 H2 H3).
Defined.

(** C1: the error thrown for the link [a -> z] is the link force's plain
    [Error("node not found: z")]. *)
Lemma dangling_link_plain_error :
  run_effect ex_engine ex_heap (ex_props [0; 1] [3]) initial_state = inl (Error "node not found: z") /\
  commit ex_engine ex_heap (ex_props [0; 1] [3]) initial_state = (ex_heap, initial_state).
Proof. split; vm_compute; reflexivity. Qed.

(** C2: [linkDistance = null]. *)
Lemma unsupported_link_distance_accepted_witness :
  (forall f, JNull <> JFun f) /\ (forall n, JNull <> JNum n) /\ (forall s, JNull <> JStr s) /\
  link_distance (computeForces JNull 10 1 100 (0, 0)%Z) = None /\
  forall engine h p st,
    throws (run_effect engine h (with_linkDistance p JNull) st) = throws (run_effect engine h p st).
Proof.
  assert (H1 : forall f, JNull <> JFun f) by (intros f E; discriminate E).
  assert (H2 : forall n, JNull <> JNum n) by (intros n E; discriminate E).
  assert (H3 : forall s, JNull <> JStr s) by (intros s E; discriminate E).
  split; [exact H1 |]. split; [exact H2 |]. split; [exact H3 |].
  exact (unsupported_link_distance_accepted JNull 10 1 100 (0, 0)%Z H1 H2 H3).
Defined.

(** C2: with [linkDistance = null] the accessor is left undefined and the
    run goes through. *)
Lemma null_link_distance_runs :
  link_distance (computeForces JNull 10 1 100 (0, 0)%Z) = None /\
  throws (run_effect ex_engine ex_heap (with_linkDistance (ex_props [0; 1] [2]) JNull)
            initial_state) = false.
Proof. split; vm_compute; reflexivity. Qed.

(** C5: the second run of [ex_run2], from the state of the first. *)
Lemma previous_frame_references_witness :
  valid_input (fst ex_run1) (ex_props [0; 1] [2]) /\
  ends_ok (fst ex_run1) (ex_props [0; 1] [2]) /\
  valid_state (fst ex_run1) (snd ex_run1) /\
  run_effect ex_engine (fst ex_run1) (ex_props [0; 1] [2]) (snd ex_run1) = inr (fst ex_run2, snd ex_run2) /\
  exists ls, currentLinks (snd ex_run2) = Some ls /\
  forall l, In l ls ->
    exists s t,
      get (read (fst ex_run2) l) "source" = JObj s /\ get (read (fst ex_run2) l) "target" = JObj t /\
      match currentNodes (snd ex_run1) with
      | None =>
          get (read (fst ex_run2) l) "previousSource" = JUndef /\
          get (read (fst ex_run2) l) "previousTarget" = JUndef
      | Some ns =>
          previous_ref (fst ex_run2) ns (get (read (fst ex_run2) s) "id")
            (get (read (fst ex_run2) l) "previousSource") /\
          previous_ref (fst ex_run2) ns (get (read (fst ex_run2) t) "id")
            (get (read (fst ex_run2) l) "previousTarget")
      end.
Proof.
  assert (H1 : valid_input (fst ex_run1) (ex_props [0; 1] [2])) by (split; forall_lt).
  assert (H2 : ends_ok (fst ex_run1) (ex_props [0; 1] [2]))
    by (intros l [<- | []]; split; vm_compute; exact I).
  assert (H3 : valid_state (fst ex_run1) (snd ex_run1)) by (vm_compute; forall_lt).
  assert (H4 : run_effect ex_engine (fst ex_run1) (ex_props [0; 1] [2]) (snd ex_run1) =
               inr (fst ex_run2, snd ex_run2)) by (vm_compute; reflexivity).
  split; [exact H1 |]. split; [exact H2 |]. split; [exact H3 |]. split; [exact H4 |].
  exact (previous_frame_references ex_engine (fst ex_run1) (ex_props [0; 1] [2]) (snd ex_run1)
           (fst ex_run2) (snd ex_run2) H1 H2 H3 H4).
Defined.

(** C7: with a function as [nodeBorderWidth] the computed node's
    [borderWidth] is that function itself, not its result [3] on the node. *)
Lemma node_border_width_function_kept :
  let '(h', (en, _)) := useNetwork_output ex_call ex_color ex_color (fst ex_run1) ex_props_bw (snd ex_run1) in
  en = Some [8; 9] /\ get (read h' 8) "borderWidth" = JFun 0 /\
  ex_call h' 0 (JObj 5) = JNum 3 /\ JFun 0 <> JNum 3.
Proof. vm_compute. split; [reflexivity | split; [reflexivity | split; [reflexivity | discriminate]]]. Qed.

(** C8: styling the state of the second run. *)
Lemma styling_copies_records_witness :
  styled_input (fst ex_run2) (snd ex_run2) /\
  let '(h', (en, el)) := useNetwork_output ex_call ex_color ex_color (fst ex_run2) (ex_props [0; 1] [2]) (snd ex_run2) in
  (forall l, l < length (fst ex_run2) -> read h' l = read (fst ex_run2) l) /\
  NoDup (or_empty en ++ or_empty el)%list /\
  (forall e, In e (or_empty en ++ or_empty el)%list -> length (fst ex_run2) <= e) /\
  (forall ns, currentNodes (snd ex_run2) = Some ns ->
     exists ens, en = Some ens /\ length ens = length ns /\
     forall i n e, nth_error ns i = Some n -> nth_error ens i = Some e ->
       get (read h' e) "x" = get (read (fst ex_run2) n) "x" /\
       get (read h' e) "y" = get (read (fst ex_run2) n) "y" /\
       forall k, k <> "color" -> k <> "borderWidth" -> k <> "borderColor" ->
         get (read h' e) k = get (read (fst ex_run2) n) k) /\
  (forall ls, currentLinks (snd ex_run2) = Some ls ->
     exists els, el = Some els /\ length els = length ls /\
     forall i l e, nth_error ls i = Some l -> nth_error els i = Some e ->
       forall k, k <> "thickness" -> k <> "color" -> get (read h' e) k = get (read (fst ex_run2) l) k).
Proof.
  assert (H1 : styled_input (fst ex_run2) (snd ex_run2)) by (split; vm_compute; forall_lt).
  split; [exact H1 |].
  exact (styling_copies_records ex_call ex_color ex_color (fst ex_run2) (ex_props [0; 1] [2])
           (snd ex_run2) H1).
Defined.

(** C10: the links [a -> b] and [a -> b] with the id [ab]. *)
Lemma link_id_spread_order_witness :
  valid_input ex_heap (ex_props [0; 1] [2; 4]) /\
  run_effect ex_engine ex_heap (ex_props [0; 1] [2; 4]) initial_state = inr (fst ex_run3, snd ex_run3) /\
  let '(h'', (_, el)) := useNetwork_output ex_call ex_color ex_color (fst ex_run3) (ex_props [0; 1] [2; 4]) (snd ex_run3) in
  exists els, el = Some els /\ length els = length (links (ex_props [0; 1] [2; 4])) /\
  forall i l e, nth_error (links (ex_props [0; 1] [2; 4])) i = Some l -> nth_error els i = Some e ->
    get (read h'' e) "id" =
    match get_opt (read ex_heap l) "id" with
    | Some v => v
    | None => JStr (to_string (get (read ex_heap l) "source") ++ "." ++
                    to_string (get (read ex_heap l) "target"))
    end.
Proof.
  assert (H1 : valid_input ex_heap (ex_props [0; 1] [2; 4])) by (split; forall_lt).
  assert (H2 : run_effect ex_engine ex_heap (ex_props [0; 1] [2; 4]) initial_state =
               inr (fst ex_run3, snd ex_run3)) by (vm_compute; reflexivity).
  split; [exact H1 |]. split; [exact H2 |].
  exact (link_id_spread_order ex_engine ex_call ex_color ex_color ex_heap (ex_props [0; 1] [2; 4])
           initial_state (fst ex_run3) (snd ex_run3) H1 H2).
Defined.


(** The links [a -> b] and [a -> b] (id [ab]) name only ids of nodes. *)
Lemma run_succeeds_when_ids_resolve_witness :
  valid_input ex_heap (ex_props [0; 1] [2; 4]) /\
  (forall l, In l (links (ex_props [0; 1] [2; 4])) ->
     is_object (get (read ex_heap l) "source") = false /\
     is_object (get (read ex_heap l) "target") = false /\
     In (get (read ex_heap l) "source") (node_ids ex_heap (ex_props [0; 1] [2; 4])) /\
     In (get (read ex_heap l) "target") (node_ids ex_heap (ex_props [0; 1] [2; 4]))) /\
  exists h' st', run_effect ex_engine ex_heap (ex_props [0; 1] [2; 4]) initial_state = inr (h', st').
Proof.
  assert (H1 : valid_input ex_heap (ex_props [0; 1] [2; 4])) by (split; forall_lt).
  assert (H2 : forall l, In l (links (ex_props [0; 1] [2; 4])) ->
     is_object (get (read ex_heap l) "source") = false /\
     is_object (get (read ex_heap l) "target") = false /\
     In (get (read ex_heap l) "source") (node_ids ex_heap (ex_props [0; 1] [2; 4])) /\
     In (get (read ex_heap l) "target") (node_ids ex_heap (ex_props [0; 1] [2; 4]))).
  { intros l [<- | [<- | []]]; vm_compute;
      (split; [reflexivity | split; [reflexivity | split; auto]]). }
  split; [exact H1 |]. split; [exact H2 |].
  exact (run_succeeds_when_ids_resolve ex_engine ex_heap (ex_props [0; 1] [2; 4]) initial_state H1 H2).
Defined.

(** The links [a -> b] and [a -> b] (id [ab]) of [ex_run3]. *)
Lemma run_resolves_links_to_last_node_witness :
  valid_input ex_heap (ex_props [0; 1] [2; 4]) /\
  (forall l, In l (links (ex_props [0; 1] [2; 4])) ->
     is_object (get (read ex_heap l) "source") = false /\
     is_object (get (read ex_heap l) "target") = false) /\
  run_effect ex_engine ex_heap (ex_props [0; 1] [2; 4]) initial_state = inr (fst ex_run3, snd ex_run3) /\
  exists nc lc, snd ex_run3 = mkState (Some nc) (Some lc) /\
  forall i l e, nth_error (links (ex_props [0; 1] [2; 4])) i = Some l -> nth_error lc i = Some e ->
    get (read (fst ex_run3) e) "index" = JNum (Z.of_nat i) /\
    last_node_with_id ex_heap (nodes (ex_props [0; 1] [2; 4])) nc (get (read ex_heap l) "source")
      (get (read (fst ex_run3) e) "source") /\
    last_node_with_id ex_heap (nodes (ex_props [0; 1] [2; 4])) nc (get (read ex_heap l) "target")
      (get (read (fst ex_run3) e) "target").
Proof.
  assert (H1 : valid_input ex_heap (ex_props [0; 1] [2; 4])) by (split; forall_lt).
  assert (H2 : forall l, In l (links (ex_props [0; 1] [2; 4])) ->
     is_object (get (read ex_heap l) "source") = false /\
     is_object (get (read ex_heap l) "target") = false)
    by (intros l [<- | [<- | []]]; vm_compute; split; reflexivity).
  assert (H3 : run_effect ex_engine ex_heap (ex_props [0; 1] [2; 4]) initial_state =
               inr (fst ex_run3, snd ex_run3)) by (vm_compute; reflexivity).
  split; [exact H1 |]. split; [exact H2 |]. split; [exact H3 |].
  exact (run_resolves_links_to_last_node ex_engine ex_heap (ex_props [0; 1] [2; 4]) initial_state
           (fst ex_run3) (snd ex_run3) H1 H2 H3).
Defined.

(** The transitions of [a] and [b] after [ex_run1]. *)
Lemma transition_keys_are_input_ids_witness :
  valid_input ex_heap (ex_props [0; 1] [2]) /\
  run_effect ex_engine ex_heap (ex_props [0; 1] [2]) initial_state = inr (fst ex_run1, snd ex_run1) /\
  let '(h2, (en, _)) := useNetwork_output ex_call ex_color ex_color (fst ex_run1) (ex_props [0; 1] [2])
                          (snd ex_run1) in
  exists ens, en = Some ens /\
  map (transition_key h2) ens = map (fun n => get (read ex_heap n) "id") (nodes (ex_props [0; 1] [2])) /\
  forall i n e, nth_error (nodes (ex_props [0; 1] [2])) i = Some n -> nth_error ens i = Some e ->
    get (getRegularTransition h2 e) "radius" = get (read ex_heap n) "radius".
Proof.
  assert (H1 : valid_input ex_heap (ex_props [0; 1] [2])) by (split; forall_lt).
  assert (H2 : run_effect ex_engine ex_heap (ex_props [0; 1] [2]) initial_state =
               inr (fst ex_run1, snd ex_run1)) by (vm_compute; reflexivity).
  split; [exact H1 |]. split; [exact H2 |].
  exact (transition_keys_are_input_ids ex_engine ex_call ex_color ex_color ex_heap (ex_props [0; 1] [2])
           initial_state (fst ex_run1) (snd ex_run1) H1 H2).
Defined.

(** The second run of [ex_run2], from the state of the first. *)
Lemma previous_is_first_match_witness :
  valid_input (fst ex_run1) (ex_props [0; 1] [2]) /\
  ends_ok (fst ex_run1) (ex_props [0; 1] [2]) /\
  valid_state (fst ex_run1) (snd ex_run1) /\
  run_effect ex_engine (fst ex_run1) (ex_props [0; 1] [2]) (snd ex_run1) = inr (fst ex_run2, snd ex_run2) /\
  currentNodes (snd ex_run1) = Some [5; 6] /\
  exists lc, currentLinks (snd ex_run2) = Some lc /\
  forall l, In l lc ->
    exists s t, get (read (fst ex_run2) l) "source" = JObj s /\ get (read (fst ex_run2) l) "target" = JObj t /\
      first_node_with_id (fst ex_run2) [5; 6] (get (read (fst ex_run2) s) "id")
        (get (read (fst ex_run2) l) "previousSource") /\
      first_node_with_id (fst ex_run2) [5; 6] (get (read (fst ex_run2) t) "id")
        (get (read (fst ex_run2) l) "previousTarget").
Proof.
  assert (H1 : valid_input (fst ex_run1) (ex_props [0; 1] [2])) by (split; forall_lt).
  assert (H2 : ends_ok (fst ex_run1) (ex_props [0; 1] [2]))
    by (intros l [<- | []]; split; vm_compute; exact I).
  assert (H3 : valid_state (fst ex_run1) (snd ex_run1)) by (vm_compute; forall_lt).
  assert (H4 : run_effect ex_engine (fst ex_run1) (ex_props [0; 1] [2]) (snd ex_run1) =
               inr (fst ex_run2, snd ex_run2)) by (vm_compute; reflexivity).
  assert (H5 : currentNodes (snd ex_run1) = Some [5; 6]) by (vm_compute; reflexivity).
  split; [exact H1 |]. split; [exact H2 |]. split; [exact H3 |]. split; [exact H4 |]. split; [exact H5 |].
  exact (previous_is_first_match ex_engine (fst ex_run1) (ex_props [0; 1] [2]) (snd ex_run1)
           (fst ex_run2) (snd ex_run2) [5; 6] H1 H2 H3 H4 H5).
Defined.
